(** * spr: the GitHub client of the stacked pull request tool

    A shallow embedding of [github/githubclient/client.go]: the branch name
    codec ([BranchNameRegex], [branchNameFromCommit]), the snapshot fetch
    ([GetInfo]), the stack ordering ([sortPullRequests]), the stack body
    formatter ([formatStackMarkdown], [formatBody]) and the base branch
    computation of [CreatePullRequest] and [UpdatePullRequest].

    Go strings are byte strings: they are [string]s here.  A slice of
    pointers [[]*github.PullRequest] is a list of addresses into a store of
    pull request objects, so that the in-place update of the [Stacked] flag
    and the aliasing between slice entries are those of the source.  A panic,
    [os.Exit] or [log.Fatal] is [None].  Logging ([log.Debug], [fmt.Printf])
    has no bearing on the results and is left out. *)

From Stdlib Require Import Ascii String ZArith Lia.
From stdpp Require Import base tactics option list strings pretty gmap.

Local Open Scope Z_scope.
Local Open Scope nat_scope.

(** ** Byte strings *)

Module GoString.

Definition LF : string := String "010"%char "".

Fixpoint HasPrefix (s prefix : string) : bool :=
  match prefix, s with
  | EmptyString, _ => true
  | String p prefix', String c s' => bool_decide (c = p) && HasPrefix s' prefix'
  | String _ _, EmptyString => false
  end.

(** [s[n:]]; the callers check the length first. *)
Fixpoint drop (n : nat) (s : string) : string :=
  match n, s with
  | 0, _ => s
  | S n', String _ s' => drop n' s'
  | S _, EmptyString => EmptyString
  end.

(** [s[:n]] *)
Fixpoint take (n : nat) (s : string) : string :=
  match n, s with
  | 0, _ => EmptyString
  | S n', String c s' => String c (take n' s')
  | S _, EmptyString => EmptyString
  end.

(** [strings.Split(s, sep)] for a separator of one byte. *)
Fixpoint Split_go (sep : ascii) (cur : string) (s : string) : list string :=
  match s with
  | EmptyString => [String.rev cur]
  | String c s' =>
      if bool_decide (c = sep) then String.rev cur :: Split_go sep EmptyString s'
      else Split_go sep (String c cur) s'
  end.

Definition Split (s : string) (sep : ascii) : list string :=
  Split_go sep EmptyString s.

(** Every byte of [s] satisfies [P]. *)
Fixpoint all (P : ascii → bool) (s : string) : bool :=
  match s with
  | EmptyString => true
  | String c s' => P c && all P s'
  end.

(** The white space of ASCII: tab, line feed, vertical tab, form feed,
    carriage return and space. *)
Definition isSpaceASCII (c : ascii) : bool :=
  bool_decide (c = "009"%char) || bool_decide (c = "010"%char)
  || bool_decide (c = "011"%char) || bool_decide (c = "012"%char)
  || bool_decide (c = "013"%char) || bool_decide (c = " "%char).

Fixpoint trimLeft (s : string) : string :=
  match s with
  | String c s' => if isSpaceASCII c then trimLeft s' else s
  | EmptyString => EmptyString
  end.

(** [strings.TrimSpace] on texts whose white space is ASCII; it stands for
    the library function where the code is evaluated on such texts. *)
Definition TrimSpaceASCII (s : string) : string :=
  String.rev (trimLeft (String.rev (trimLeft s))).

End GoString.

(** ** Data model ([git.Commit], [github.PullRequest], [github.GitHubInfo]) *)

Module git.

(** Modelled from the spec: the struct [git.Commit] is declared in package
    [git], outside this file.  Its fields are those the composite literal
    in [GetInfo] fills in and the spec's data model lists: fingerprint,
    hash, subject and body. *)
Record Commit := mkCommit {
  CommitID : string;
  CommitHash : string;
  Subject : string;
  Body : string
}.

(** Go's [==] on the struct: all fields equal. *)
Global Instance Commit_eq_dec : EqDecision Commit.
Proof. solve_decision. Defined.

(** [git.GitInterface]: the client runs git commands through it; an error
    is [None]. *)
Record GitInterface := mkGit {
  Git : string → option string
}.

End git.

(** The check states [GetInfo] and [CreatePullRequest] name. *)
Inductive checkStatus :=
| CheckStatusUnknown
| CheckStatusPending
| CheckStatusPass
| CheckStatusFail.

Global Instance checkStatus_eq_dec : EqDecision checkStatus.
Proof. solve_decision. Defined.

Record PullRequestMergeStatus := mkMergeStatus {
  ChecksPass : checkStatus;
  ReviewApproved : bool;
  NoConflicts : bool;
  Stacked : bool
}.

Global Instance PullRequestMergeStatus_eq_dec : EqDecision PullRequestMergeStatus.
Proof. solve_decision. Defined.

Record PullRequest := mkPullRequest {
  ID : string;
  Number : Z;
  Title : string;
  FromBranch : string;
  ToBranch : string;
  Commit : git.Commit;
  MergeStatus : PullRequestMergeStatus
}.

Global Instance PullRequest_eq_dec : EqDecision PullRequest.
Proof. solve_decision. Defined.

(** Addresses of pull request objects, and the store they point into. *)
Abbreviation Ptr := nat (only parsing).
Abbreviation Heap := (list PullRequest) (only parsing).

Record GitHubInfo := mkGitHubInfo {
  UserName : string;
  RepositoryID : string;
  LocalBranch : string;
  PullRequests : list Ptr
}.

(** [pr.MergeStatus.Stacked = true] *)
Definition setStacked (pr : PullRequest) : PullRequest :=
  {| ID := ID pr; Number := Number pr; Title := Title pr;
     FromBranch := FromBranch pr; ToBranch := ToBranch pr;
     Commit := Commit pr;
     MergeStatus :=
       {| ChecksPass := ChecksPass (MergeStatus pr);
          ReviewApproved := ReviewApproved (MergeStatus pr);
          NoConflicts := NoConflicts (MergeStatus pr);
          Stacked := true |} |}.

(** The entries a slice of pointers denotes in a store; [None] when one of
    the pointers is dangling. *)
Definition entries (h : Heap) (prs : list Ptr) : option (list PullRequest) :=
  mapM (λ p : Ptr, h !! p) prs.

(** ** The ordering engine *)

Section Ordering.

(** [config.Config] and the method [Ready] of [PullRequest] are declared in
    other packages; the ordering only asks [Ready] whether an entry can be
    merged. *)
Context {Config : Type}.
Variable Ready : Config → PullRequest → bool.

(** The closure [swap] of [sortPullRequests]. *)
Definition swap (prs : list Ptr) (i j : nat) : option (list Ptr) :=
  buf ← prs !! i;
  pj ← prs !! j;
  Some (<[j := buf]> (<[i := pj]> prs)).

(** The inner loop [for j = i; j < len(prs); j++]: the first index from
    [j] on whose entry merges into [targetBranch].  [n] counts the
    iterations left, [len(prs) - j]. *)
Fixpoint scan (h : Heap) (prs : list Ptr) (targetBranch : string)
    (j n : nat) : option (option nat) :=
  match n with
  | 0 => Some None
  | S n' =>
      p ← prs !! j;
      pr ← h !! p;
      if decide (ToBranch pr = targetBranch) then Some (Some j)
      else scan h prs targetBranch (S j) n'
  end.

(** The outer loop [for i := 0; i < len(prs); i++], run for [n] more
    iterations from index [i]. *)
Fixpoint sortLoop (h : Heap) (prs : list Ptr) (targetBranch : string)
    (i n : nat) : option (list Ptr * string) :=
  match n with
  | 0 => Some (prs, targetBranch)
  | S n' =>
      found ← scan h prs targetBranch i (length prs - i);
      match found with
      | Some j =>
          p ← prs !! j;
          pr ← h !! p;
          prs' ← swap prs i j;
          sortLoop h prs' (FromBranch pr) (S i) n'
      | None => sortLoop h prs targetBranch (S i) n'
      end
  end.

(** The loop that updates the stacked merge status flag. *)
Fixpoint markStacked (config : Config) (h : Heap) (prs : list Ptr)
    : option Heap :=
  match prs with
  | [] => Some h
  | p :: prs' =>
      pr ← h !! p;
      if Ready config pr then markStacked config (<[p := setStacked pr]> h) prs'
      else Some h
  end.

Definition sortPullRequests (h : Heap) (prs : list Ptr) (config : Config)
    (targetBranch : string) : option (list Ptr * Heap) :=
  '(sorted, _) ← sortLoop h prs targetBranch 0 (length prs);
  h' ← markStacked config h sorted;
  Some (sorted, h').

End Ordering.

(** ** The branch identity codec *)

(** The part of Go's [regexp] package that [BranchNameRegex] uses: literals,
    greedy [+] and counted repetition of a character class, capture groups,
    concatenation and the end-of-text anchor [$], matched the way the
    package specifies for its default (leftmost-first) semantics: the match
    that a backtracking search finds first, from the leftmost position
    where one exists. *)
Module regexp.

Inductive Regexp :=
| Lit (l : string)
| Plus (cls : ascii → bool)
| Repeat (cls : ascii → bool) (n : nat)
| Capture (i : nat) (r : Regexp)
| Cat (r1 r2 : Regexp)
| EndText.

Fixpoint NumSubexp (r : Regexp) : nat :=
  match r with
  | Capture _ r => S (NumSubexp r)
  | Cat r1 r2 => NumSubexp r1 + NumSubexp r2
  | _ => 0
  end.

(** The text left after the literal [l], when [s] starts with it. *)
Fixpoint lit (l s : string) : option string :=
  match l, s with
  | EmptyString, _ => Some s
  | String a l', String c s' => if decide (c = a) then lit l' s' else None
  | String _ _, EmptyString => None
  end.

(** [cls+], greedy: one byte of the class, then another round if the rest
    of the pattern still matches after it, else the rest of the pattern
    from here. *)
Fixpoint plus {R} (cls : ascii → bool) (s : string) (k : string → option R)
    : option R :=
  match s with
  | String c s' =>
      if cls c then
        match plus cls s' k with
        | Some r => Some r
        | None => k s'
        end
      else None
  | EmptyString => None
  end.

(** [cls{n}] *)
Fixpoint rep (cls : ascii → bool) (n : nat) (s : string) : option string :=
  match n, s with
  | 0, _ => Some s
  | S n', String c s' => if cls c then rep cls n' s' else None
  | S _, EmptyString => None
  end.

(** The text matched between the input [s] and what is left of it, [s']. *)
Definition consumed (s s' : string) : string :=
  GoString.take (String.length s - String.length s') s.

(** Match [r] at the start of [s], then the rest of the pattern [k];
    [caps] holds the captures so far. *)
Fixpoint exec (r : Regexp) (s : string) (caps : list string)
    (k : string → list string → option (list string))
    : option (list string) :=
  match r with
  | Lit l =>
      match lit l s with
      | Some s' => k s' caps
      | None => None
      end
  | Plus cls => plus cls s (λ s', k s' caps)
  | Repeat cls n =>
      match rep cls n s with
      | Some s' => k s' caps
      | None => None
      end
  | Capture i r =>
      exec r s caps (λ s' caps', k s' (<[i := consumed s s']> caps'))
  | Cat r1 r2 => exec r1 s caps (λ s' caps', exec r2 s' caps' k)
  | EndText =>
      match s with
      | EmptyString => k s caps
      | String _ _ => None
      end
  end.

(** A match starting at the first byte of [s]: the whole match and the
    text of each group. *)
Definition matchHere (r : Regexp) (s : string) : option (list string) :=
  exec r s (replicate (S (NumSubexp r)) EmptyString)
    (λ s' caps, Some (<[0 := consumed s s']> caps)).

(** [Regexp.FindStringSubmatch]: the leftmost match; [None] is the nil
    slice. *)
Fixpoint FindStringSubmatch (r : Regexp) (s : string)
    : option (list string) :=
  match matchHere r s with
  | Some m => Some m
  | None =>
      match s with
      | EmptyString => None
      | String _ s' => FindStringSubmatch r s'
      end
  end.

(** A range [lo-hi] of a character class. *)
Definition range (lo hi c : ascii) : bool :=
  (nat_of_ascii lo <=? nat_of_ascii c) && (nat_of_ascii c <=? nat_of_ascii hi).

Definition byte (b c : ascii) : bool := bool_decide (c = b).

End regexp.

Import regexp.

(** [[a-zA-Z0-9_\-]] *)
Definition userClass (c : ascii) : bool :=
  range "a" "z" c || range "A" "Z" c || range "0" "9" c
  || byte "_" c || byte "-" c.

(** [[a-zA-Z0-9_\-/\.]] *)
Definition branchClass (c : ascii) : bool :=
  range "a" "z" c || range "A" "Z" c || range "0" "9" c
  || byte "_" c || byte "-" c || byte "/" c || byte "." c.

(** [[a-f0-9]] *)
Definition hexClass (c : ascii) : bool :=
  range "a" "f" c || range "0" "9" c.

(** [pr/[a-zA-Z0-9_\-]+/([a-zA-Z0-9_\-/\.]+)/([a-f0-9]{8})$] *)
Definition BranchNameRegex : Regexp :=
  Cat (Lit "pr/")
    (Cat (Plus userClass)
      (Cat (Lit "/")
        (Cat (Capture 1 (Plus branchClass))
          (Cat (Lit "/")
            (Cat (Capture 2 (Repeat hexClass 8))
              EndText))))).

Definition branchNameFromCommit (info : GitHubInfo) (commit : git.Commit)
    : string :=
  "pr/" +:+ UserName info +:+ "/" +:+ LocalBranch info +:+ "/"
  +:+ git.CommitID commit.

(** ** The stack body formatter *)

Section Formatter.

(** [strings.TrimSpace] of Go's standard library. *)
Variable TrimSpace : string → string.

(** The loop [for i := len(stack) - 1; i >= 0; i--] with [n = i + 1];
    [buf] is the buffer written so far. *)
Fixpoint formatStackMarkdown_loop (h : Heap) (commit : git.Commit)
    (stack : list Ptr) (n : nat) (buf : string) : option string :=
  match n with
  | 0 => Some buf
  | S i =>
      p ← stack !! i;
      pr ← h !! p;
      let isCurrent := bool_decide (Commit pr = commit) in
      let suffix := if isCurrent then " ⬅" else "" in
      formatStackMarkdown_loop h commit stack i
        (buf +:+ "- #" +:+ pretty (Number pr) +:+ suffix +:+ GoString.LF)
  end.

Definition formatStackMarkdown (h : Heap) (commit : git.Commit)
    (stack : list Ptr) : option string :=
  formatStackMarkdown_loop h commit stack (length stack) "".

Definition addManualMergeNotice (body : string) : string :=
  body +:+ GoString.LF +:+ GoString.LF +:+
  "⚠️ *Part of a stack created by [spr](https://github.com/ejoffe/spr). " +:+
  "Do not merge manually using the UI - doing so may have unexpected results.*".

Definition formatBody (h : Heap) (commit : git.Commit) (stack : list Ptr)
    : option string :=
  if decide (length stack ≤ 1) then Some (TrimSpace (git.Body commit))
  else if decide (git.Body commit = "") then
    md ← formatStackMarkdown h commit stack;
    Some ("**Stack**:" +:+ GoString.LF +:+ addManualMergeNotice md)
  else
    md ← formatStackMarkdown h commit stack;
    Some (git.Body commit +:+ GoString.LF +:+ GoString.LF +:+ "---"
          +:+ GoString.LF +:+ GoString.LF +:+ "**Stack**:" +:+ GoString.LF
          +:+ addManualMergeNotice md).

End Formatter.

(** ** Collaborators: configuration and the generated API client *)

Module config.

(** The fields of [config.RepoConfig] and [config.UserConfig] this file
    reads. *)
Record RepoConfig := mkRepoConfig {
  GitHubRepoOwner : string;
  GitHubRepoName : string;
  RemoteBranches : list string;
  GitHubBranch : string
}.

Record UserConfig := mkUserConfig {
  CreateDraftPRs : bool
}.

Record Config := mkConfig {
  Repo : RepoConfig;
  User : UserConfig
}.

End config.

Module genclient.

(** The commit of a pull request node of the [PullRequests] query. *)
Module commit.
Record t := mk {
  Oid : string;
  MessageHeadline : string;
  MessageBody : string;
  (** [StatusCheckRollup.State], [None] for the nil rollup *)
  StatusCheckRollup : option string
}.
End commit.

Module node.
Record t := mk {
  Id : string;
  Number : Z;
  Title : string;
  HeadRefName : string;
  BaseRefName : string;
  (** [node.Repository.Id] *)
  RepositoryId : string;
  (** [*node.Commits.Nodes], each with its [Commit] *)
  Commits : option (list commit.t);
  ReviewDecision : option string;
  Mergeable : string
}.
End node.

Module response.
Record t := mk {
  (** [resp.Viewer.Login] *)
  Login : string;
  (** [*resp.Viewer.PullRequests.Nodes] *)
  Nodes : option (list node.t);
  (** [resp.Repository.Id] *)
  RepositoryId : string
}.
End response.

Module create.
Record input := mk {
  RepositoryId : string;
  BaseRefName : string;
  HeadRefName : string;
  Title : string;
  Body : option string;
  Draft : option bool
}.
(** [resp.CreatePullRequest.PullRequest] *)
Record output := mkOutput {
  Id : string;
  Number : Z
}.
End create.

Module update.
Record input := mk {
  PullRequestId : string;
  BaseRefName : option string;
  Title : option string;
  Body : option string
}.
End update.

(** The methods of [genclient.Client] used here; an error is [None]. *)
Record Client := mkClient {
  PullRequests : string → string → option response.t;
  CreatePullRequest : create.input → option create.output;
  UpdatePullRequest : update.input → option unit
}.

(** A request sent to the remote. *)
Inductive Call :=
| CallPullRequests (owner name : string)
| CallCreatePullRequest (input : create.input)
| CallUpdatePullRequest (input : update.input).

End genclient.

Record client := mkclient {
  config : config.Config;
  api : genclient.Client
}.

(** ** State: the store of pull request objects and the requests sent *)

Record World := mkWorld {
  heap : Heap;
  calls : list genclient.Call
}.

Definition M (A : Type) : Type := World → option (A * World).

Global Instance M_ret : MRet M := λ A a w, Some (a, w).
Global Instance M_bind : MBind M := λ A B f m w,
  match m w with
  | Some (a, w') => f a w'
  | None => None
  end.

(** A step that can only abort. *)
Definition lift {A} (o : option A) : M A := λ w,
  match o with
  | Some a => Some (a, w)
  | None => None
  end.

(** [&github.PullRequest{...}] *)
Definition alloc (pr : PullRequest) : M Ptr := λ w,
  Some (length (heap w), {| heap := heap w ++ [pr]; calls := calls w |}).

Definition getHeap : M Heap := λ w, Some (heap w, w).

Definition putHeap (h : Heap) : M unit := λ w,
  Some (tt, {| heap := h; calls := calls w |}).

(** A request to the remote and its answer, followed by [check(err)] or
    [log.Fatal]. *)
Definition send {A} (call : genclient.Call) (answer : option A) : M A := λ w,
  match answer with
  | Some a => Some (a, {| heap := heap w; calls := calls w ++ [call] |})
  | None => None
  end.

(** ** Local and remote branch names *)

(** The loop of [getLocalBranchName] over the lines; the panic after it is
    [None]. *)
Fixpoint getLocalBranchName_loop (lines : list string) : option string :=
  match lines with
  | [] => None
  | line :: lines' =>
      if GoString.HasPrefix line "* " then Some (GoString.drop 2 line)
      else getLocalBranchName_loop lines'
  end.

Definition getLocalBranchName (gitcmd : git.GitInterface) : option string :=
  output ← git.Git gitcmd "branch --no-color";
  let lines := GoString.Split output "010" in
  getLocalBranchName_loop lines.

Fixpoint GetRemoteBranchName_loop (localBranchName : string)
    (remoteBranches : list string) (GitHubBranch : string) : string :=
  match remoteBranches with
  | [] => GitHubBranch
  | remoteBranchName :: rest =>
      if decide (localBranchName = remoteBranchName) then remoteBranchName
      else GetRemoteBranchName_loop localBranchName rest GitHubBranch
  end.

Definition GetRemoteBranchName (gitcmd : git.GitInterface)
    (repoConfig : config.RepoConfig) : option string :=
  localBranchName ← getLocalBranchName gitcmd;
  Some (GetRemoteBranchName_loop localBranchName
          (config.RemoteBranches repoConfig) (config.GitHubBranch repoConfig)).

(** ** The client: snapshot fetch, create and update *)

Section Client.

Variable Ready : config.Config → PullRequest → bool.
Variable TrimSpace : string → string.

(** The body of the loop of [GetInfo] over the nodes of the response:
    [Some None] when the node is passed over, [Some (Some pr)] with the
    object appended to [requests] otherwise.  The object is built in two
    steps in the source; nothing else points to it before the append. *)
Definition GetInfo_node (resp : genclient.response.t) (branchname : string)
    (node : genclient.node.t) : option (option PullRequest) :=
  if decide (genclient.response.RepositoryId resp
             ≠ genclient.node.RepositoryId node) then Some None
  else
    match FindStringSubmatch BranchNameRegex (genclient.node.HeadRefName node) with
    | Some matches =>
        m1 ← matches !! 1;
        if decide (m1 = branchname) then
          nodes ← genclient.node.Commits node;
          commit ← nodes !! 0;
          m2 ← matches !! 2;
          let checkStatus :=
            match genclient.commit.StatusCheckRollup commit with
            | Some state =>
                if decide (state = "SUCCESS") then CheckStatusPass
                else if decide (state = "PENDING") then CheckStatusPending
                else CheckStatusFail
            | None => CheckStatusFail
            end in
          Some (Some
            {| ID := genclient.node.Id node;
               Number := genclient.node.Number node;
               Title := genclient.node.Title node;
               FromBranch := genclient.node.HeadRefName node;
               ToBranch := genclient.node.BaseRefName node;
               Commit :=
                 {| git.CommitID := m2;
                    git.CommitHash := genclient.commit.Oid commit;
                    git.Subject := genclient.commit.MessageHeadline commit;
                    git.Body := genclient.commit.MessageBody commit |};
               MergeStatus :=
                 {| ChecksPass := checkStatus;
                    ReviewApproved :=
                      bool_decide (genclient.node.ReviewDecision node
                                   = Some "APPROVED");
                    NoConflicts :=
                      bool_decide (genclient.node.Mergeable node = "MERGEABLE");
                    Stacked := false |} |})
        else Some None
    | None => Some None
    end.

Fixpoint GetInfo_loop (resp : genclient.response.t) (branchname : string)
    (nodes : list genclient.node.t) (requests : list Ptr) : M (list Ptr) :=
  match nodes with
  | [] => mret requests
  | node :: nodes' =>
      r ← lift (GetInfo_node resp branchname node);
      match r with
      | Some pullRequest =>
          p ← alloc pullRequest;
          GetInfo_loop resp branchname nodes' (requests ++ [p])
      | None => GetInfo_loop resp branchname nodes' requests
      end
  end.

Definition GetInfo (c : client) (gitcmd : git.GitInterface) : M GitHubInfo :=
  let owner := config.GitHubRepoOwner (config.Repo (config c)) in
  let name := config.GitHubRepoName (config.Repo (config c)) in
  resp ← send (genclient.CallPullRequests owner name)
              (genclient.PullRequests (api c) owner name);
  branchname ← lift (getLocalBranchName gitcmd);
  nodes ← lift (genclient.response.Nodes resp);
  requests ← GetInfo_loop resp branchname nodes [];
  targetBranch ← lift (GetRemoteBranchName gitcmd (config.Repo (config c)));
  h ← getHeap;
  '(requests, h') ← lift (sortPullRequests Ready h requests (config c) targetBranch);
  _ ← putHeap h';
  mret {| UserName := genclient.response.Login resp;
          RepositoryID := genclient.response.RepositoryId resp;
          LocalBranch := branchname;
          PullRequests := requests |}.

Definition CreatePullRequest (c : client) (gitcmd : git.GitInterface)
    (info : GitHubInfo) (commit : git.Commit) (prevCommit : option git.Commit)
    : M Ptr :=
  baseRefName ← lift (GetRemoteBranchName gitcmd (config.Repo (config c)));
  let baseRefName :=
    match prevCommit with
    | Some prev => branchNameFromCommit info prev
    | None => baseRefName
    end in
  let headRefName := branchNameFromCommit info commit in
  h ← getHeap;
  commitBody ← lift (formatBody TrimSpace h commit (PullRequests info));
  let input :=
    {| genclient.create.RepositoryId := RepositoryID info;
       genclient.create.BaseRefName := baseRefName;
       genclient.create.HeadRefName := headRefName;
       genclient.create.Title := git.Subject commit;
       genclient.create.Body := Some commitBody;
       genclient.create.Draft :=
         Some (config.CreateDraftPRs (config.User (config c))) |} in
  resp ← send (genclient.CallCreatePullRequest input)
              (genclient.CreatePullRequest (api c) input);
  alloc {| ID := genclient.create.Id resp;
           Number := genclient.create.Number resp;
           Title := git.Subject commit;
           FromBranch := headRefName;
           ToBranch := baseRefName;
           Commit := commit;
           MergeStatus :=
             {| ChecksPass := CheckStatusUnknown;
                ReviewApproved := false;
                NoConflicts := false;
                Stacked := false |} |}.

Definition UpdatePullRequest (c : client) (gitcmd : git.GitInterface)
    (info : GitHubInfo) (pr : Ptr) (commit : git.Commit)
    (prevCommit : option git.Commit) : M unit :=
  baseRefName ← lift (GetRemoteBranchName gitcmd (config.Repo (config c)));
  let baseRefName :=
    match prevCommit with
    | Some prev => branchNameFromCommit info prev
    | None => baseRefName
    end in
  h ← getHeap;
  pr ← lift (h !! pr);
  body ← lift (formatBody TrimSpace h commit (PullRequests info));
  let input :=
    {| genclient.update.PullRequestId := ID pr;
       genclient.update.BaseRefName := Some baseRefName;
       genclient.update.Title := Some (git.Subject commit);
       genclient.update.Body := Some body |} in
  send (genclient.CallUpdatePullRequest input)
       (genclient.UpdatePullRequest (api c) input).

End Client.


(** ** What the claims say about the results *)

(** The order of a chain on [trunk]: the first entry merges into [trunk],
    every later entry into the branch the entry before it comes from. *)
Definition chained (trunk : string) (out : list PullRequest) : Prop :=
  (∀ pr, out !! 0 = Some pr → ToBranch pr = trunk) ∧
  (∀ i a b, out !! i = Some a → out !! S i = Some b →
            ToBranch b = FromBranch a).

(** The same, by recursion on the list. *)
Fixpoint linked (target : string) (l : list PullRequest) : Prop :=
  match l with
  | [] => True
  | pr :: l' => ToBranch pr = target ∧ linked (FromBranch pr) l'
  end.

(** The entries form a single connected chain ending at [trunk]: they can
    be lined up as a chain on [trunk], and the chain does not fork (no two
    entries merge into the same branch). *)
Definition singleChain (trunk : string) (vs : list PullRequest) : Prop :=
  NoDup (ToBranch <$> vs) ∧ ∃ chain, vs ≡ₚ chain ∧ chained trunk chain.

(** [Stacked] is true for a contiguous prefix only. *)
Definition stackedPrefix (out : list PullRequest) : Prop :=
  ∀ k j a b,
    out !! k = Some a → Stacked (MergeStatus a) = false →
    k < j → out !! j = Some b → Stacked (MergeStatus b) = false.

(** Two objects that differ at most in that the second has [Stacked] set. *)
Definition flagged (a b : PullRequest) : Prop := b = a ∨ b = setStacked a.

(** ** Instances used to evaluate the code on concrete inputs *)

Module github.

(** Modelled from the spec: the method [Ready] of [github.PullRequest] is
    declared in package [github], outside this file.  An entry is ready
    when all three merge signals hold: checks pass, review approved, no
    conflicts. *)
Definition Ready (config : config.Config) (pr : PullRequest) : bool :=
  bool_decide (ChecksPass (MergeStatus pr) = CheckStatusPass)
  && ReviewApproved (MergeStatus pr)
  && NoConflicts (MergeStatus pr).

End github.

Module Examples.

Definition cfg : config.Config :=
  {| config.Repo :=
       {| config.GitHubRepoOwner := "ejoffe";
          config.GitHubRepoName := "spr";
          config.RemoteBranches := ["main"; "master"];
          config.GitHubBranch := "main" |};
     config.User := {| config.CreateDraftPRs := false |} |}.

(** A pull request number [n] from branch [from] into [to], with all three
    merge signals equal to [ready]. *)
Definition pr (n : Z) (fingerprint from to : string) (ready stacked : bool)
    : PullRequest :=
  {| ID := "PR_" +:+ pretty n; Number := n; Title := "change " +:+ pretty n;
     FromBranch := from; ToBranch := to;
     Commit := {| git.CommitID := fingerprint; git.CommitHash := "";
                  git.Subject := "change " +:+ pretty n; git.Body := "" |};
     MergeStatus :=
       {| ChecksPass := if ready then CheckStatusPass else CheckStatusFail;
          ReviewApproved := ready; NoConflicts := ready;
          Stacked := stacked |} |}.

Definition brA : string := "pr/u/feature/0000000a".
Definition brB : string := "pr/u/feature/0000000b".
Definition brC : string := "pr/u/feature/0000000c".

(** The stack A, B, C on [main], all ready. *)
Definition A : PullRequest := pr 1 "0000000a" brA "main" true false.
Definition B : PullRequest := pr 2 "0000000b" brB brA true false.
Definition C : PullRequest := pr 3 "0000000c" brC brB true false.

(** A stack whose first entry is not ready and whose second entry comes
    with its flag already set. *)
Definition A_notReady : PullRequest := pr 1 "0000000a" brA "main" false false.
Definition B_stacked : PullRequest := pr 2 "0000000b" brB brA true true.
Definition B_notReady : PullRequest := pr 2 "0000000b" brB brA false false.

(** Entries of a broken chain: only [Z_main] merges into [main], and
    nothing merges into its branch. *)
Definition X_gone : PullRequest := pr 7 "00000007" "pr/u/feature/00000007" "gone" false false.
Definition Y_lost : PullRequest := pr 8 "00000008" "pr/u/feature/00000008" "lost" false false.
Definition Z_main : PullRequest := pr 9 "00000009" "pr/u/feature/00000009" "main" false false.

End Examples.

(** ** What the claims say about the stack block *)

(** The line of one entry, in the words of the spec: the bullet
    [- #<number>], followed by the directional marker exactly when the
    entry's commit equals the commit the body is written for. *)
Definition stackLine (commit : git.Commit) (pr : PullRequest) : string :=
  "- #" +:+ pretty (Number pr)
  +:+ (if decide (Commit pr = commit) then " ⬅" else "")
  +:+ GoString.LF.

(** The lines of a text, one after the other. *)
Definition join (lines : list string) : string :=
  foldr String.append "" lines.

(** The body around a stack block [md]. *)
Definition stackBody (commit : git.Commit) (md : string) : string :=
  if decide (git.Body commit = "") then
    "**Stack**:" +:+ GoString.LF +:+ addManualMergeNotice md
  else
    git.Body commit +:+ GoString.LF +:+ GoString.LF +:+ "---"
    +:+ GoString.LF +:+ GoString.LF +:+ "**Stack**:" +:+ GoString.LF
    +:+ addManualMergeNotice md.

(** ** What the claims say about the snapshot *)

(** A node of the response belongs to the stack of [branchname], in the
    words of the spec: its head branch name matches the structured branch
    pattern and the decoded local-branch component is [branchname].  The
    code also asks that the node is of the repository that was queried. *)
Definition inStack (resp : genclient.response.t) (branchname : string)
    (node : genclient.node.t) : bool :=
  bool_decide (genclient.response.RepositoryId resp
               = genclient.node.RepositoryId node)
  && match FindStringSubmatch BranchNameRegex (genclient.node.HeadRefName node) with
     | Some matches => bool_decide (matches !! 1 = Some branchname)
     | None => false
     end.

(** The status-check rollup of a commit is absent, or its state is neither
    [SUCCESS] nor [PENDING]. *)
Definition rollupUnusable (commit : genclient.commit.t) : Prop :=
  match genclient.commit.StatusCheckRollup commit with
  | Some state => state ≠ "SUCCESS" ∧ state ≠ "PENDING"
  | None => True
  end.

(** The objects the loop of [GetInfo] allocates, in the order of the
    response; [None] when the loop panics. *)
Definition accepted (resp : genclient.response.t) (branchname : string)
    (nodes : list genclient.node.t) : option (list PullRequest) :=
  omap id <$> mapM (GetInfo_node resp branchname) nodes.

Module Remote.

(** A checkout of [feature] in a repository whose trunk is [main]. *)
Definition gitcmd : git.GitInterface :=
  {| git.Git := λ cmd,
       if decide (cmd = "branch --no-color")
       then Some ("* feature" +:+ GoString.LF +:+ "  main" +:+ GoString.LF)
       else None |}.

Definition node (id : string) (n : Z) (head base : string)
    (rollup : option string) : genclient.node.t :=
  {| genclient.node.Id := id; genclient.node.Number := n;
     genclient.node.Title := "change " +:+ pretty n;
     genclient.node.HeadRefName := head; genclient.node.BaseRefName := base;
     genclient.node.RepositoryId := "R_1";
     genclient.node.Commits :=
       Some [ {| genclient.commit.Oid := "oid" +:+ pretty n;
                 genclient.commit.MessageHeadline := "change " +:+ pretty n;
                 genclient.commit.MessageBody := "";
                 genclient.commit.StatusCheckRollup := rollup |} ];
     genclient.node.ReviewDecision := Some "APPROVED";
     genclient.node.Mergeable := "MERGEABLE" |}.

(** The answer of the remote: the stack of [feature] out of order, one
    entry with an unknown check state and one without a rollup, a pull
    request of another local branch and one of other tooling. *)
Definition nodes : list genclient.node.t :=
  [ node "PR_3" 3 "pr/u/feature/0000000c" "pr/u/feature/0000000b" None;
    node "PR_9" 9 "pr/u/other/0000000d" "main" (Some "SUCCESS");
    node "PR_1" 1 "pr/u/feature/0000000a" "main" (Some "SUCCESS");
    node "PR_7" 7 "dependabot/bump" "main" (Some "SUCCESS");
    node "PR_2" 2 "pr/u/feature/0000000b" "pr/u/feature/0000000a"
      (Some "EXPECTED") ].

Definition resp : genclient.response.t :=
  {| genclient.response.Login := "u";
     genclient.response.Nodes := Some nodes;
     genclient.response.RepositoryId := "R_1" |}.

Definition c : client :=
  {| config := Examples.cfg;
     api :=
       {| genclient.PullRequests := λ _ _, Some resp;
          genclient.CreatePullRequest := λ _,
            Some {| genclient.create.Id := "PR_4"; genclient.create.Number := 4 |};
          genclient.UpdatePullRequest := λ _, Some tt |} |}.

Definition empty : World := {| heap := []; calls := [] |}.

(** The snapshot of the stack A, B, C of [Examples]. *)
Definition info : GitHubInfo :=
  {| UserName := "u"; RepositoryID := "R_1"; LocalBranch := "feature";
     PullRequests := [0; 1; 2] |}.

Definition world : World :=
  {| heap := [Examples.A; Examples.B; Examples.C]; calls := [] |}.

End Remote.

(** ** Further properties of the results *)

(** The target the scan is left with after the chain [l] on [target]: the
    branch the last entry of the chain comes from. *)
Fixpoint lastTarget (target : string) (l : list PullRequest) : string :=
  match l with
  | [] => target
  | pr :: l' => lastTarget (FromBranch pr) l'
  end.

(** [strings.Join(lines, sep)] for a separator of one byte: the text that
    [strings.Split] takes apart. *)
Fixpoint joinWith (sep : ascii) (lines : list string) : string :=
  match lines with
  | [] => ""
  | [line] => line
  | line :: rest => line +:+ String sep (joinWith sep rest)
  end.

(** The byte [sep] does not occur in [s]. *)
Definition free (sep : ascii) (s : string) : bool :=
  GoString.all (λ c, negb (bool_decide (c = sep))) s.

(** ** The credential lookup ([findToken]) *)

Module credentials.

(** An entry of the configuration of the [gh] CLI, by host. *)
Record ghEntry := mkGh {
  ghUser : string;
  ghOauthToken : string;
  ghGitProtocol : string
}.

(** An entry of the configuration of the [hub] CLI; a host has a list of
    them. *)
Record hubEntry := mkHub {
  hubUser : string;
  hubOauthToken : string;
  hubProtocol : string
}.

(** What [findToken] reads from its surroundings: the environment
    ([os.Getenv], the empty string for an unset variable) and the outcome
    of [readGhCLIConfig] and of [readHubCLIConfig], [None] for an error
    (no home directory, no file, no valid YAML). *)
Record Env := mkEnv {
  Getenv : string → string;
  readGhCLIConfig : option (gmap string ghEntry);
  readHubCLIConfig : option (gmap string (list hubEntry))
}.

(** The part of [findToken] after the [gh] configuration: the [hub]
    configuration. *)
Definition findToken_hub (env : Env) : string :=
  match readHubCLIConfig env with
  | None => ""
  | Some hubCfg =>
      match hubCfg !! "github.com" with
      | Some c =>
          match c with
          | [] => ""
          | c0 :: _ => hubOauthToken c0
          end
      | None => ""
      end
  end.

(** [findToken].  The loop over the [gh] configuration returns the token
    of the entry whose key is [githubHost]; a map has at most one. *)
Definition findToken (env : Env) (githubHost : string) : string :=
  let token := Getenv env "GITHUB_TOKEN" in
  if decide (token ≠ "") then token
  else
    match readGhCLIConfig env with
    | Some cfg =>
        match cfg !! githubHost with
        | Some user => ghOauthToken user
        | None => findToken_hub env
        end
    | None => findToken_hub env
    end.

End credentials.

(** ** The assignable users ([GetAssignableUsers]) *)

Module users.

(** A node of [resp.Repository.AssignableUsers.Nodes]; [Name] is a pointer
    to a string. *)
Record node := mkNode {
  Id : string;
  Login : string;
  Name : option string
}.

(** [resp.Repository.AssignableUsers]: the nodes and the page info. *)
Record page := mkPage {
  Nodes : option (list node);
  HasNextPage : bool;
  EndCursor : option string
}.

(** [github.RepoAssignee] *)
Record RepoAssignee := mkAssignee {
  ID : string;
  AssigneeLogin : string;
  AssigneeName : string
}.

(** The method [AssignableUsers] of [genclient.Client]: owner, name and
    cursor to a page; an error is [None]. *)
Definition Query := string → string → option string → option page.

(** How a run of the paging loop ends: with a result, aborted ([log.Fatal]
    or a panic), or not within the iterations allowed. *)
Inductive Run (A : Type) :=
| Done (a : A)
| Abort
| OutOfFuel.
Arguments Done {A} a.
Arguments Abort {A}.
Arguments OutOfFuel {A}.

(** The loop over the nodes of one page; a nil [Name] panics. *)
Fixpoint appendUsers (users : list RepoAssignee) (nodes : list node)
    : option (list RepoAssignee) :=
  match nodes with
  | [] => Some users
  | n :: nodes' =>
      name ← Name n;
      appendUsers
        (users ++ [{| ID := Id n; AssigneeLogin := Login n;
                      AssigneeName := name |}]) nodes'
  end.

(** The loop [for { ... }] of [GetAssignableUsers], for at most [fuel]
    pages. *)
Fixpoint GetAssignableUsers_loop (fuel : nat) (query : Query)
    (owner name : string) (users : list RepoAssignee)
    (endCursor : option string) : Run (list RepoAssignee) :=
  match fuel with
  | 0 => OutOfFuel
  | S fuel' =>
      match query owner name endCursor with
      | None => Abort
      | Some resp =>
          match Nodes resp with
          | None => Abort
          | Some nodes =>
              match appendUsers users nodes with
              | None => Abort
              | Some users' =>
                  if negb (HasNextPage resp) then Done users'
                  else GetAssignableUsers_loop fuel' query owner name users'
                         (EndCursor resp)
              end
          end
      end
  end.

Definition GetAssignableUsers (fuel : nat) (query : Query)
    (config : config.Config) : Run (list RepoAssignee) :=
  GetAssignableUsers_loop fuel query
    (config.GitHubRepoOwner (config.Repo config))
    (config.GitHubRepoName (config.Repo config)) [] None.

(** The assignees of a page whose users all have a name. *)
Definition assignees (nodes : list node) : option (list RepoAssignee) :=
  mapM (λ n, name ← Name n;
             Some {| ID := Id n; AssigneeLogin := Login n;
                     AssigneeName := name |}) nodes.

(** The pages [ps] are what the remote answers from [cursor] on: each is
    the answer at the end cursor of the page before it, all but the last
    announce a next page. *)
Fixpoint paged (query : Query) (owner name : string)
    (cursor : option string) (ps : list page) : Prop :=
  match ps with
  | [] => False
  | p :: rest =>
      query owner name cursor = Some p ∧
      match rest with
      | [] => HasNextPage p = false
      | _ :: _ => HasNextPage p = true ∧ paged query owner name (EndCursor p) rest
      end
  end.

End users.

(** ** Further inputs to evaluate the code on *)

Module Cases.

(** A remote whose answer has a pull request of the stack without a
    commit. *)
Definition bare : genclient.node.t :=
  {| genclient.node.Id := "PR_5"; genclient.node.Number := 5;
     genclient.node.Title := "change 5";
     genclient.node.HeadRefName := "pr/u/feature/0000000e";
     genclient.node.BaseRefName := "main";
     genclient.node.RepositoryId := "R_1";
     genclient.node.Commits := Some [];
     genclient.node.ReviewDecision := None;
     genclient.node.Mergeable := "MERGEABLE" |}.

Definition bareResp : genclient.response.t :=
  {| genclient.response.Login := "u";
     genclient.response.Nodes := Some [bare];
     genclient.response.RepositoryId := "R_1" |}.

Definition bareClient : client :=
  {| config := Examples.cfg;
     api :=
       {| genclient.PullRequests := λ _ _, Some bareResp;
          genclient.CreatePullRequest := λ _, None;
          genclient.UpdatePullRequest := λ _, None |} |}.

(** A git that fails. *)
Definition noGit : git.GitInterface := {| git.Git := λ _, None |}.

(** Two pages of assignable users. *)
Definition first : users.page :=
  {| users.Nodes :=
       Some [ {| users.Id := "U_1"; users.Login := "ann"; users.Name := Some "Ann" |};
              {| users.Id := "U_2"; users.Login := "bob"; users.Name := Some "" |} ];
     users.HasNextPage := true;
     users.EndCursor := Some "cursor1" |}.

Definition second : users.page :=
  {| users.Nodes :=
       Some [ {| users.Id := "U_3"; users.Login := "cy"; users.Name := Some "Cy" |} ];
     users.HasNextPage := false;
     users.EndCursor := None |}.

Definition twoPages : users.Query := λ _ _ cursor,
  match cursor with
  | None => Some first
  | Some cur => if decide (cur = "cursor1") then Some second else None
  end.

(** A user without a display name. *)
Definition nameless : users.page :=
  {| users.Nodes :=
       Some [ {| users.Id := "U_4"; users.Login := "dee"; users.Name := None |} ];
     users.HasNextPage := false;
     users.EndCursor := None |}.

(** A remote that announces a next page at every cursor. *)
Definition endless : users.Query := λ _ _ _, Some first.

End Cases.

(** * The code on small inputs *)

Example Split_lines :
  GoString.Split ("* feature" +:+ GoString.LF +:+ "  main" +:+ GoString.LF) "010"
  = ["* feature"; "  main"; ""].
Proof. reflexivity. Qed.

Example Split_empty : GoString.Split "" "010" = [""].
Proof. reflexivity. Qed.

Example getLocalBranchName_feature :
  getLocalBranchName Remote.gitcmd = Some "feature".
Proof. reflexivity. Qed.

Example getLocalBranchName_detached :
  getLocalBranchName {| git.Git := λ _, Some "  main" |} = None.
Proof. reflexivity. Qed.

Example GetRemoteBranchName_default :
  GetRemoteBranchName Remote.gitcmd (config.Repo Examples.cfg) = Some "main".
Proof. reflexivity. Qed.

Example FindStringSubmatch_nested_branch :
  FindStringSubmatch BranchNameRegex "pr/ejoffe/feature/x.1/deadbeef"
  = Some ["pr/ejoffe/feature/x.1/deadbeef"; "feature/x.1"; "deadbeef"].
Proof. vm_compute. reflexivity. Qed.

Example FindStringSubmatch_trunk :
  FindStringSubmatch BranchNameRegex "main" = None.
Proof. vm_compute. reflexivity. Qed.

Example FindStringSubmatch_upper_case_hex :
  FindStringSubmatch BranchNameRegex "pr/u/feature/DEADBEEF" = None.
Proof. vm_compute. reflexivity. Qed.

Example FindStringSubmatch_long_fingerprint :
  FindStringSubmatch BranchNameRegex "pr/u/feature/0deadbeef" = None.
Proof. vm_compute. reflexivity. Qed.

(** The pattern is not anchored at the start: the match is the leftmost
    one, wherever it starts. *)
Example FindStringSubmatch_unanchored :
  FindStringSubmatch BranchNameRegex "wip-pr/u/feature/deadbeef"
  = Some ["pr/u/feature/deadbeef"; "feature"; "deadbeef"].
Proof. vm_compute. reflexivity. Qed.

Example sortPullRequests_stack :
  sortPullRequests github.Ready [Examples.C; Examples.A; Examples.B]
    [0; 1; 2] Examples.cfg "main"
  = Some ([1; 2; 0],
          [setStacked Examples.C; setStacked Examples.A; setStacked Examples.B]).
Proof. vm_compute. reflexivity. Qed.

Example sortPullRequests_empty :
  sortPullRequests github.Ready [] [] Examples.cfg "main" = Some ([], []).
Proof. reflexivity. Qed.

Example sortPullRequests_nil_pointer :
  sortPullRequests github.Ready [Examples.A] [0; 5] Examples.cfg "x" = None.
Proof. reflexivity. Qed.

Example formatBody_stack :
  formatBody GoString.TrimSpaceASCII [Examples.A; Examples.B; Examples.C]
    (Commit Examples.B) [0; 1; 2]
  = Some ("**Stack**:" +:+ GoString.LF
          +:+ "- #3" +:+ GoString.LF
          +:+ "- #2 ⬅" +:+ GoString.LF
          +:+ "- #1" +:+ GoString.LF
          +:+ GoString.LF +:+ GoString.LF
          +:+ "⚠️ *Part of a stack created by [spr](https://github.com/ejoffe/spr). "
          +:+ "Do not merge manually using the UI - doing so may have unexpected results.*").
Proof. vm_compute. reflexivity. Qed.

(** * Facts about the ordering engine *)

Section OrderingFacts.

Context {Config : Type}.
Variable Ready : Config → PullRequest → bool.

Implicit Types (h : list PullRequest) (prs sorted : list nat).
Implicit Types (vs out : list PullRequest) (t : string).

Lemma linked_chained t vs : linked t vs ↔ chained t vs.
Proof.
  revert t. induction vs as [|v vs IH]; intros t; simpl.
  - split; [intros _|done]. split; intros *; by rewrite lookup_nil.
  - rewrite IH. unfold chained. split.
    + intros [Ht [H0 HS]]. split.
      * intros pr [= <-]. done.
      * intros [|i] a b Ha Hb; simpl in *.
        -- simplify_eq. by apply H0.
        -- by eapply HS.
    + intros [H0 HS]. split; [by apply H0|]. split.
      * intros pr Hpr. by apply (HS 0 v pr).
      * intros i a b Ha Hb. by apply (HS (S i) a b).
Qed.

Lemma flagged_branches a b :
  flagged a b → ToBranch b = ToBranch a ∧ FromBranch b = FromBranch a.
Proof. by intros [->| ->]. Qed.

Lemma linked_flagged t vs out :
  Forall2 flagged vs out → linked t vs → linked t out.
Proof.
  intros HF. revert t. induction HF as [|a b vs out Hab _ IH]; intros t; [done|].
  simpl. apply flagged_branches in Hab as [-> ->]. intros [? ?]. auto.
Qed.

(** *** The inner loop *)

Lemma scan_spec h prs t j n :
  Forall (λ p, is_Some (h !! p)) prs →
  j + n ≤ length prs →
  (∃ k p v, scan h prs t j n = Some (Some k) ∧ j ≤ k < j + n ∧
     prs !! k = Some p ∧ h !! p = Some v ∧ ToBranch v = t ∧
     ∀ k' p' v', j ≤ k' < k → prs !! k' = Some p' → h !! p' = Some v' →
                 ToBranch v' ≠ t)
  ∨ (scan h prs t j n = Some None ∧
     ∀ k p v, j ≤ k < j + n → prs !! k = Some p → h !! p = Some v →
              ToBranch v ≠ t).
Proof.
  intros Hval. revert j. induction n as [|n IH]; intros j Hlen; simpl.
  - right. split; [done|]. intros; lia.
  - destruct (lookup_lt_is_Some_2 prs j) as [p Hp]; [lia|].
    rewrite Hp; simpl.
    destruct (proj1 (Forall_lookup _ _) Hval j p Hp) as [v Hv].
    rewrite Hv; simpl.
    destruct (decide (ToBranch v = t)) as [Heq|Hne].
    + left. exists j, p, v. repeat split; try done; try lia; intros; lia.
    + destruct (IH (S j)) as [(k & p' & v' & -> & Hk & ? & ? & ? & Hmin)
                             |[-> Hnone]]; [lia|..].
      * left. exists k, p', v'. repeat split; try done; try lia.
        intros k' q w Hk' Hq Hw.
        destruct (decide (k' = j)) as [->|]; [by simplify_eq|].
        eapply Hmin; [|done..]. lia.
      * right. split; [done|]. intros k q w Hk Hq Hw.
        destruct (decide (k = j)) as [->|]; [by simplify_eq|].
        eapply Hnone; [|done..]. lia.
Qed.

(** *** The swap *)

Lemma swap_Some prs i j p q :
  prs !! i = Some p → prs !! j = Some q →
  swap prs i j = Some (<[j := p]> (<[i := q]> prs)).
Proof. intros Hi Hj. unfold swap. by rewrite Hi, Hj. Qed.

Lemma swapped_lookup {A} (l : list A) i j a b :
  l !! i = Some a → l !! j = Some b →
  <[j := a]> (<[i := b]> l) !! i = Some b.
Proof.
  intros Hi Hj. destruct (decide (i = j)) as [->|Hne].
  - simplify_eq. rewrite list_insert_insert_eq.
    apply list_lookup_insert_eq. by eapply lookup_lt_Some.
  - rewrite list_lookup_insert_ne by done.
    apply list_lookup_insert_eq. by eapply lookup_lt_Some.
Qed.

Lemma swapped_take {A} (l : list A) i j a b :
  i ≤ j → take i (<[j := a]> (<[i := b]> l)) = take i l.
Proof. intros. by rewrite !take_insert_ge by lia. Qed.

Lemma swapped_drop_perm {A} (l : list A) i j a b :
  i ≤ j → l !! i = Some a → l !! j = Some b →
  drop i (<[j := a]> (<[i := b]> l)) ≡ₚ drop i l.
Proof.
  intros Hij Hi Hj.
  apply (Permutation_app_inv_l (take i l)).
  rewrite take_drop.
  rewrite <-(swapped_take l i j a b) at 1 by done.
  rewrite take_drop. by apply Permutation_insert_swap.
Qed.

(** *** The outer loop: it returns, and it permutes the slice *)

Lemma sortLoop_total h prs t i n :
  Forall (λ p, is_Some (h !! p)) prs →
  ∃ sorted t', sortLoop h prs t i n = Some (sorted, t') ∧ sorted ≡ₚ prs.
Proof.
  revert prs t i. induction n as [|n IH]; intros prs t i Hval; simpl.
  - by exists prs, t.
  - destruct (decide (i ≤ length prs)) as [Hi|Hi].
    + destruct (scan_spec h prs t i (length prs - i) Hval)
        as [(k & p & v & -> & Hk & Hp & Hv & _)|[-> _]]; [lia|..]; simpl.
      * rewrite Hp; simpl. rewrite Hv; simpl.
        destruct (lookup_lt_is_Some_2 prs i) as [q Hq]; [lia|].
        rewrite (swap_Some _ _ _ _ _ Hq Hp); simpl.
        destruct (IH (<[k := q]> (<[i := p]> prs)) (FromBranch v) (S i))
          as (sorted & t' & -> & Hperm).
        { apply Forall_insert; [apply Forall_insert; [done|]|].
          - by eapply (proj1 (Forall_lookup _ _) Hval).
          - by eapply (proj1 (Forall_lookup _ _) Hval). }
        exists sorted, t'. split; [done|].
        rewrite Hperm. by apply Permutation_insert_swap.
      * by apply IH.
    + replace (length prs - i) with 0 by lia. simpl. by apply IH.
Qed.

Lemma sortLoop_Permutation h prs t i n sorted t' :
  sortLoop h prs t i n = Some (sorted, t') → sorted ≡ₚ prs.
Proof.
  revert prs t i. induction n as [|n IH]; intros prs t i; simpl.
  - by intros [= -> ->].
  - destruct (scan h prs t i (length prs - i)) as [[k|]|]; simpl; [|by apply IH|done].
    destruct (prs !! k) as [p|] eqn:Hp; simpl; [|done].
    destruct (h !! p) as [v|]; simpl; [|done].
    unfold swap. rewrite Hp.
    destruct (prs !! i) as [q|] eqn:Hq; simpl; [|done].
    intros Hs. rewrite (IH _ _ _ Hs). by apply Permutation_insert_swap.
Qed.

(** *** A target that nothing matches *)

Lemma sortLoop_no_match h prs t i n :
  Forall (λ p, is_Some (h !! p)) prs →
  (∀ k p v, i ≤ k → prs !! k = Some p → h !! p = Some v → ToBranch v ≠ t) →
  sortLoop h prs t i n = Some (prs, t).
Proof.
  intros Hval. revert i. induction n as [|n IH]; intros i Hno; simpl; [done|].
  destruct (decide (i ≤ length prs)) as [Hi|Hi].
  - destruct (scan_spec h prs t i (length prs - i) Hval)
      as [(k & p & v & _ & Hk & Hp & Hv & Ht & _)|[-> _]]; [lia|..].
    + exfalso. eapply (Hno k); [|done..]. lia.
    + simpl. apply IH. intros k p v Hk. apply Hno. lia.
  - replace (length prs - i) with 0 by lia. simpl.
    apply IH. intros k p v Hk. apply Hno. lia.
Qed.

(** Running [n + m] iterations is running [n], then [m] more. *)
Lemma sortLoop_split h prs t i n m :
  sortLoop h prs t i (n + m) =
  '(mid, t1) ← sortLoop h prs t i n; sortLoop h mid t1 (i + n) m.
Proof.
  revert prs t i. induction n as [|n IH]; intros prs t i; simpl.
  - by rewrite Nat.add_0_r.
  - destruct (scan h prs t i (length prs - i)) as [[k|]|]; simpl; [| |done].
    + destruct (prs !! k) as [p|]; simpl; [|done].
      destruct (h !! p) as [v|]; simpl; [|done].
      destruct (swap prs i k) as [prs'|]; simpl; [|done].
      rewrite IH. by replace (S i + n) with (i + S n) by lia.
    + rewrite IH. by replace (S i + n) with (i + S n) by lia.
Qed.

End OrderingFacts.

Section StackedFacts.

Context {Config : Type}.
Variable Ready : Config → PullRequest → bool.

Implicit Types (h : list PullRequest) (prs sorted : list nat).
Implicit Types (vs out : list PullRequest) (t : string) (config : Config).

Lemma setStacked_idemp v : setStacked (setStacked v) = setStacked v.
Proof. done. Qed.

Lemma setStacked_id v : Stacked (MergeStatus v) = true → setStacked v = v.
Proof. destruct v as [? ? ? ? ? ? []]; simpl. by intros ->. Qed.

(** *** The loop over the stacked flags *)

Lemma markStacked_total config h prs :
  Forall (λ p, is_Some (h !! p)) prs →
  is_Some (markStacked Ready config h prs).
Proof.
  revert h. induction prs as [|p prs IH]; intros h Hval; simpl; [done|].
  apply Forall_cons in Hval as [[v Hv] Hval]. rewrite Hv; simpl.
  destruct (Ready config v); [|done].
  apply IH. eapply Forall_impl; [done|]. intros q; simpl.
  rewrite !lookup_lt_is_Some, length_insert. done.
Qed.

Lemma markStacked_flagged config h prs h' :
  markStacked Ready config h prs = Some h' →
  length h' = length h ∧
  ∀ p v, h !! p = Some v → ∃ v', h' !! p = Some v' ∧ flagged v v'.
Proof.
  revert h. induction prs as [|p prs IH]; intros h; simpl.
  - intros [= <-]. split; [done|]. intros p v Hv. exists v. split; [done|by left].
  - destruct (h !! p) as [v|] eqn:Hv; simpl; [|done].
    destruct (Ready config v).
    + intros Hm. destruct (IH _ Hm) as [Hlen Hfl].
      rewrite length_insert in Hlen. split; [done|].
      intros q w Hw. destruct (decide (q = p)) as [->|Hne].
      * simplify_eq.
        destruct (Hfl p (setStacked v)) as (v' & Hv' & Hf).
        { apply list_lookup_insert_eq. by eapply lookup_lt_Some. }
        exists v'. split; [done|]. right.
        destruct Hf as [->| ->]; by rewrite ?setStacked_idemp.
      * apply Hfl. by rewrite list_lookup_insert_ne.
    + intros [= <-]. split; [done|]. intros q w Hw. exists w.
      split; [done|by left].
Qed.

Lemma markStacked_other config h prs h' p :
  p ∉ prs → markStacked Ready config h prs = Some h' → h' !! p = h !! p.
Proof.
  revert h. induction prs as [|q prs IH]; intros h Hp; simpl.
  - by intros [= <-].
  - apply not_elem_of_cons in Hp as [Hne Hp].
    destruct (h !! q) as [v|]; simpl; [|done].
    destruct (Ready config v); [|by intros [= <-]].
    intros Hm. rewrite (IH _ Hp Hm). by rewrite list_lookup_insert_ne.
Qed.

(** A flag that is set stays set, whatever the slice. *)
Lemma markStacked_keeps config h prs h' p v :
  markStacked Ready config h prs = Some h' →
  h !! p = Some v → Stacked (MergeStatus v) = true → h' !! p = Some v.
Proof.
  intros Hm Hv Hst.
  destruct (markStacked_flagged _ _ _ _ Hm) as [_ Hfl].
  destruct (Hfl p v Hv) as (v' & Hv' & [->| ->]); [done|].
  by rewrite setStacked_id in Hv'.
Qed.

(** With distinct objects whose flags all start unset, the flags set form
    a prefix of the slice. *)
Lemma markStacked_prefix config h prs h' :
  NoDup prs →
  (∀ p, p ∈ prs → ∃ v, h !! p = Some v ∧ Stacked (MergeStatus v) = false) →
  markStacked Ready config h prs = Some h' →
  ∀ k j p q a b,
    prs !! k = Some p → prs !! j = Some q → k < j →
    h' !! p = Some a → Stacked (MergeStatus a) = false →
    h' !! q = Some b → Stacked (MergeStatus b) = false.
Proof.
  revert h. induction prs as [|p0 prs IH]; intros h Hnd Hfalse; simpl.
  { intros _ k j p q a b Hk. by rewrite lookup_nil in Hk. }
  apply NoDup_cons in Hnd as [Hp0 Hnd].
  destruct (Hfalse p0) as (v0 & Hv0 & Hs0); [by left|].
  rewrite Hv0; simpl. destruct (Ready config v0).
  - intros Hm k j p q a b Hk Hj Hkj Ha Hsa Hb.
    destruct k as [|k]; simpl in Hk.
    + simplify_eq. rewrite (markStacked_other _ _ _ _ _ Hp0 Hm) in Ha.
      rewrite list_lookup_insert_eq in Ha by (by eapply lookup_lt_Some).
      by simplify_eq.
    + destruct j as [|j]; [lia|]. simpl in Hj.
      eapply (IH _ Hnd) with (k := k) (j := j); try done; [|lia].
      intros r Hr. destruct (Hfalse r) as (w & Hw & Hsw); [by right|].
      exists w. split; [|done].
      rewrite list_lookup_insert_ne; [done|]. by intros ->.
  - intros [= <-] k j p q a b Hk Hj Hkj Ha Hsa Hb.
    destruct (Hfalse q) as (w & Hw & Hsw).
    { by eapply list_elem_of_lookup_2. }
    by simplify_eq.
Qed.

(** The entries of a slice before and after the flags are updated. *)
Lemma entries_flagged h h' prs vs :
  entries h prs = Some vs →
  (∀ p v, h !! p = Some v → ∃ v', h' !! p = Some v' ∧ flagged v v') →
  ∃ out, entries h' prs = Some out ∧ Forall2 flagged vs out.
Proof.
  unfold entries. rewrite mapM_Some. intros HF Hfl.
  induction HF as [|p v prs vs Hp _ (out & Hout & IH)].
  - by exists [].
  - destruct (Hfl p v Hp) as (v' & Hv' & Hf).
    exists (v' :: out). split; [|by constructor].
    apply mapM_Some. constructor; [done|]. by apply mapM_Some.
Qed.

Lemma entries_valid h prs vs :
  entries h prs = Some vs → Forall (λ p, is_Some (h !! p)) prs.
Proof.
  unfold entries. intros He. apply (mapM_is_Some_1 (λ p : nat, h !! p)).
  by rewrite He.
Qed.

End StackedFacts.

Section ChainFacts.

Implicit Types (h : list PullRequest) (prs sorted : list nat).
Implicit Types (vs out c : list PullRequest) (t : string).

Lemma NoDup_fmap_eq {A B} (f : A → B) (l : list A) x y :
  NoDup (f <$> l) → x ∈ l → y ∈ l → f x = f y → x = y.
Proof.
  intros Hnd [i Hi]%list_elem_of_lookup_1 [j Hj]%list_elem_of_lookup_1 Hf.
  assert (i = j) as ->; [|congruence].
  eapply (NoDup_lookup _ i j (f x) Hnd).
  - by rewrite list_lookup_fmap, Hi.
  - by rewrite list_lookup_fmap, Hj, Hf.
Qed.

(** On a chain that does not fork the outer loop lines the entries up in
    the order of the chain. *)
Lemma sortLoop_chain h n : ∀ i prs t vs c,
  Forall2 (λ p v, h !! p = Some v) prs vs →
  i + n = length prs →
  drop i vs ≡ₚ c → linked t c → NoDup (ToBranch <$> c) →
  ∃ sorted t', sortLoop h prs t i n = Some (sorted, t') ∧
    take i sorted = take i prs ∧
    Forall2 (λ p v, h !! p = Some v) (drop i sorted) c.
Proof.
  induction n as [|n IH]; intros i prs t vs c HF Hlen Hperm Hlink Hnd; simpl.
  - exists prs, t. split; [done|]. split; [done|].
    assert (length vs = length prs) as Hl by (symmetry; by eapply Forall2_length).
    rewrite drop_ge in Hperm by lia. apply Permutation_nil_l in Hperm as <-.
    rewrite drop_ge by lia. constructor.
  - assert (length vs = length prs) as Hl by (symmetry; by eapply Forall2_length).
    assert (Forall (λ p, is_Some (h !! p)) prs) as Hval.
    { apply Forall_lookup. intros k p Hp.
      destruct (Forall2_lookup_l _ _ _ _ _ HF Hp) as (v & _ & ->). done. }
    destruct c as [|x c].
    { apply Permutation_nil_r in Hperm.
      apply (f_equal length) in Hperm. rewrite length_drop in Hperm.
      simpl in Hperm. lia. }
    destruct Hlink as [Hx Hlink].
    assert (NoDup (ToBranch <$> c)) as Hnd'.
    { rewrite fmap_cons in Hnd. by apply NoDup_cons in Hnd as [_ ?]. }
    assert (x ∈ drop i vs) as Hxin by (rewrite Hperm; by left).
    destruct (scan_spec h prs t i (length prs - i) Hval)
      as [(k & p & v & -> & Hk & Hp & Hv & Ht & _)|[_ Hnone]]; [lia|..].
    2:{ exfalso. apply list_elem_of_lookup_1 in Hxin as [d Hd].
        rewrite lookup_drop in Hd.
        destruct (Forall2_lookup_r _ _ _ _ _ HF Hd) as (p & Hp & Hpx).
        apply (Hnone (i + d) p x); try done.
        apply lookup_lt_Some in Hp. lia. }
    simpl. rewrite Hp; simpl. rewrite Hv; simpl.
    destruct (Forall2_lookup_l _ _ _ _ _ HF Hp) as (v' & Hvk & Hv').
    assert (v' = v) as -> by congruence.
    assert (v = x) as ->.
    { eapply (NoDup_fmap_eq ToBranch (x :: c)).
      - done.
      - rewrite <-Hperm. apply list_elem_of_lookup. exists (k - i).
        rewrite lookup_drop. by replace (i + (k - i)) with k by lia.
      - by left.
      - congruence. }
    destruct (lookup_lt_is_Some_2 prs i) as [q Hq]; [lia|].
    destruct (Forall2_lookup_l _ _ _ _ _ HF Hq) as (w & Hwi & Hw).
    rewrite (swap_Some _ _ _ _ _ Hq Hp); simpl.
    set (prs' := <[k := q]> (<[i := p]> prs)).
    set (vs' := <[k := w]> (<[i := x]> vs)).
    assert (vs' !! i = Some x) as Hvi by (by apply swapped_lookup).
    assert (prs' !! i = Some p) as Hpi by (by apply swapped_lookup).
    destruct (IH (S i) prs' (FromBranch x) vs' c) as (sorted & t' & -> & Htake & Hdrop).
    + by repeat apply Forall2_insert.
    + unfold prs'. rewrite !length_insert. lia.
    + apply (Permutation_cons_inv (a := x)).
      rewrite <-Hperm, <-(drop_S _ _ _ Hvi).
      apply swapped_drop_perm; [lia|done..].
    + done.
    + done.
    + exists sorted, t'. split; [done|].
      assert (sorted !! i = Some p) as Hsi.
      { rewrite <-(lookup_take_lt sorted (S i) i) by lia.
        rewrite Htake, lookup_take_lt by lia. done. }
      split.
      * apply (f_equal (take i)) in Htake.
        rewrite !take_take in Htake.
        replace (i `min` S i) with i in Htake by lia.
        rewrite Htake. unfold prs'. apply swapped_take. lia.
      * rewrite (drop_S _ _ _ Hsi). by constructor.
Qed.

End ChainFacts.

(** * The claims on the ordering engine *)

Section OrderingClaims.

Context {Config : Type}.
Variable Ready : Config → PullRequest → bool.

Implicit Types (h : list PullRequest) (prs sorted : list nat).
Implicit Types (vs out : list PullRequest) (config : Config).

(** What [sortPullRequests] returns in general: it returns whenever every
    pointer of the slice points to an object, the slice is permuted, and
    the objects change at most by a [Stacked] flag that is set. *)
Lemma sortPullRequests_returns h prs config trunk :
  Forall (λ p, is_Some (h !! p)) prs →
  ∃ sorted t' h',
    sortLoop h prs trunk 0 (length prs) = Some (sorted, t') ∧
    markStacked Ready config h sorted = Some h' ∧
    sortPullRequests Ready h prs config trunk = Some (sorted, h') ∧
    sorted ≡ₚ prs.
Proof.
  intros Hval.
  destruct (sortLoop_total h prs trunk 0 (length prs) Hval)
    as (sorted & t' & Hs & Hperm).
  destruct (markStacked_total Ready config h sorted) as [h' Hm].
  { by rewrite Hperm. }
  exists sorted, t', h'. unfold sortPullRequests. rewrite Hs; simpl.
  by rewrite Hm.
Qed.

(** The order of a chain, for any store and slice: the pointers are
    permuted, the objects they point to in the input store are the chain,
    and what they point to in the output store is that chain again, each
    object unchanged or with its flag set. *)
Lemma sortPullRequests_chain h prs config trunk vs :
  entries h prs = Some vs →
  singleChain trunk vs →
  ∃ sorted h' out chain,
    sortPullRequests Ready h prs config trunk = Some (sorted, h') ∧
    sorted ≡ₚ prs ∧
    entries h sorted = Some chain ∧
    chain ≡ₚ vs ∧
    entries h' sorted = Some out ∧
    Forall2 flagged chain out ∧
    chained trunk out.
Proof.
  intros He (Hnd & chain & Hperm & Hch).
  apply linked_chained in Hch.
  assert (Forall2 (λ p v, h !! p = Some v) prs vs) as HF by (by apply mapM_Some).
  destruct (sortLoop_chain h (length prs) 0 prs trunk vs chain)
    as (sorted & t' & Hs & _ & Hsorted); try done.
  { by rewrite <-Hperm. }
  rewrite drop_0 in Hsorted.
  assert (entries h sorted = Some chain) as Hes by (by apply mapM_Some).
  destruct (markStacked_total Ready config h sorted) as [h' Hm].
  { by eapply entries_valid. }
  destruct (markStacked_flagged _ _ _ _ _ Hm) as [_ Hfl].
  destruct (entries_flagged _ _ _ _ Hes Hfl) as (out & Hout & Hflag).
  exists sorted, h', out, chain. split; [|split; [|do 4 (split; [done|])]].
  - unfold sortPullRequests. rewrite Hs; simpl. by rewrite Hm.
  - by eapply sortLoop_Permutation.
  - apply linked_chained. by eapply linked_flagged.
Qed.

(** C1. For a set of pull requests whose ToBranch/FromBranch links form a
    single connected chain ending at the trunk branch, [sortPullRequests]
    returns the entries in an order in which the first entry's ToBranch is
    the trunk and every later entry's ToBranch is the FromBranch of the
    entry before it.  The entries it returns are the entries it was given:
    the pointers are a reordering of the input slice, and the objects they
    point to afterwards are the objects they pointed to before, each
    unchanged or with its [Stacked] flag set. *)
Theorem sortPullRequests_chain_order h prs config trunk vs :
  entries h prs = Some vs →
  singleChain trunk vs →
  ∃ sorted h' out chain,
    sortPullRequests Ready h prs config trunk = Some (sorted, h') ∧
    sorted ≡ₚ prs ∧
    entries h sorted = Some chain ∧
    chain ≡ₚ vs ∧
    entries h' sorted = Some out ∧
    Forall2 flagged chain out ∧
    chained trunk out.
Proof. apply sortPullRequests_chain. Qed.

(** Distinct objects whose flags all start unset: the output is a
    reordering of the input, each object is unchanged or has its flag set,
    and the flags that are set form a prefix. *)
Lemma sortPullRequests_distinct_unset h prs config trunk :
  NoDup prs →
  (∀ p, p ∈ prs → ∃ v, h !! p = Some v ∧ Stacked (MergeStatus v) = false) →
  ∃ sorted h' out,
    sortPullRequests Ready h prs config trunk = Some (sorted, h') ∧
    sorted ≡ₚ prs ∧
    length h' = length h ∧
    (∀ p v, h !! p = Some v → ∃ v', h' !! p = Some v' ∧ flagged v v') ∧
    entries h' sorted = Some out ∧
    stackedPrefix out.
Proof.
  intros Hnd Hfalse.
  assert (Forall (λ p, is_Some (h !! p)) prs) as Hval.
  { apply Forall_forall. intros p Hp. destruct (Hfalse p Hp) as (v & -> & _). done. }
  destruct (sortPullRequests_returns h prs config trunk Hval)
    as (sorted & t' & h' & Hs & Hm & Hsort & Hperm).
  destruct (markStacked_flagged _ _ _ _ _ Hm) as [Hlen Hfl].
  assert (is_Some (entries h sorted)) as [vs' Hvs'].
  { apply mapM_is_Some_2. by rewrite Hperm. }
  destruct (entries_flagged _ _ _ _ Hvs' Hfl) as (out & Hout & _).
  exists sorted, h', out. do 5 (split; [done|]).
  intros k j a b Ha Hsa Hkj Hb.
  assert (Forall2 (λ p v, h' !! p = Some v) sorted out) as HF by (by apply mapM_Some).
  destruct (Forall2_lookup_r _ _ _ _ _ HF Ha) as (p & Hp & Hpa).
  destruct (Forall2_lookup_r _ _ _ _ _ HF Hb) as (q & Hq & Hqb).
  refine (markStacked_prefix Ready config h sorted h' _ _ Hm
            k j p q a b Hp Hq Hkj Hpa Hsa Hqb).
  - by rewrite Hperm.
  - intros r Hr. apply Hfalse. by rewrite <-Hperm.
Qed.

(** C2, as amended. When the slice holds distinct objects and every input
    entry starts with [Stacked == false], the [Stacked] flags of the output
    are true for a contiguous prefix only: if [output[k].Stacked == false]
    then [output[j].Stacked == false] for all [j > k], also when a later
    entry is ready by itself. *)
Theorem sortPullRequests_stacked_prefix h prs config trunk :
  NoDup prs →
  (∀ p, p ∈ prs → ∃ v, h !! p = Some v ∧ Stacked (MergeStatus v) = false) →
  ∃ sorted h' out,
    sortPullRequests Ready h prs config trunk = Some (sorted, h') ∧
    entries h' sorted = Some out ∧
    stackedPrefix out.
Proof.
  intros Hnd Hfalse.
  destruct (sortPullRequests_distinct_unset h prs config trunk Hnd Hfalse)
    as (sorted & h' & out & Hsort & _ & _ & _ & Hout & Hpre).
  by exists sorted, h', out.
Qed.

(** C4, as amended. When the outer loop of [sortPullRequests] reaches a
    position [i] whose current target branch is matched by no remaining
    entry, the traversal is not aborted and nothing moves any more: the
    output is the slice as it stands at that moment, so the remaining
    entries come at the end in the order that the earlier swaps left them
    in. *)
Theorem sortPullRequests_unmatched_target h prs config trunk i mid t :
  Forall (λ p, is_Some (h !! p)) prs →
  i ≤ length prs →
  sortLoop h prs trunk 0 i = Some (mid, t) →
  (∀ k p v, i ≤ k → mid !! k = Some p → h !! p = Some v → ToBranch v ≠ t) →
  sortLoop h mid t i (length prs - i) = Some (mid, t) ∧
  ∃ h', sortPullRequests Ready h prs config trunk = Some (mid, h').
Proof.
  intros Hval Hi Hmid Hno.
  assert (mid ≡ₚ prs) as Hperm by (by eapply sortLoop_Permutation).
  assert (Forall (λ p, is_Some (h !! p)) mid) as Hval' by (by rewrite Hperm).
  assert (sortLoop h mid t i (length prs - i) = Some (mid, t)) as Hrest.
  { by apply sortLoop_no_match. }
  split; [done|].
  destruct (markStacked_total Ready config h mid Hval') as [h' Hm].
  exists h'. unfold sortPullRequests.
  replace (length prs) with (i + (length prs - i)) at 1 by lia.
  rewrite sortLoop_split, Hmid; simpl. rewrite Hrest; simpl. by rewrite Hm.
Qed.

(** C10. [sortPullRequests] never sets a [Stacked] flag to false: it
    returns the input entries, each unchanged or with its flag set, and an
    entry whose flag is true on input is returned as it is.  Hence an entry
    that comes with its flag set and ends up after an entry whose flag is
    false breaks the contiguous prefix. *)
Theorem sortPullRequests_keeps_stacked h prs config trunk :
  Forall (λ p, is_Some (h !! p)) prs →
  ∃ sorted h',
    sortPullRequests Ready h prs config trunk = Some (sorted, h') ∧
    sorted ≡ₚ prs ∧
    (∀ p v, h !! p = Some v → ∃ v', h' !! p = Some v' ∧ flagged v v') ∧
    (∀ p v, h !! p = Some v → Stacked (MergeStatus v) = true →
            h' !! p = Some v) ∧
    (∀ out k j a q b,
       entries h' sorted = Some out →
       out !! k = Some a → Stacked (MergeStatus a) = false → k < j →
       sorted !! j = Some q → h !! q = Some b →
       Stacked (MergeStatus b) = true →
       ¬ stackedPrefix out).
Proof.
  intros Hval.
  destruct (sortPullRequests_returns h prs config trunk Hval)
    as (sorted & t' & h' & Hs & Hm & Hsort & Hperm).
  exists sorted, h'. split; [done|]. split; [done|].
  destruct (markStacked_flagged _ _ _ _ _ Hm) as [_ Hfl].
  split; [done|]. split.
  - intros p v. exact (markStacked_keeps Ready config h sorted h' p v Hm).
  - intros out k j a q b Hout Ha Hsa Hkj Hq Hb Hsb Hpre.
    assert (Forall2 (λ p v, h' !! p = Some v) sorted out) as HF by (by apply mapM_Some).
    destruct (Forall2_lookup_l _ _ _ _ _ HF Hq) as (b' & Hb' & Hqb).
    rewrite (markStacked_keeps _ _ _ _ _ _ _ Hm Hb Hsb) in Hqb.
    simplify_eq. by rewrite (Hpre k j a b' Ha Hsa Hkj Hb') in Hsb.
Qed.

End OrderingClaims.

(** ** The ordering claims on concrete stacks *)

Lemma sortPullRequests_chain_order_witness :
  ∃ sorted h' out chain,
    sortPullRequests github.Ready [Examples.C; Examples.A; Examples.B]
      [0; 1; 2] Examples.cfg "main" = Some (sorted, h') ∧
    sorted ≡ₚ [0; 1; 2] ∧
    entries [Examples.C; Examples.A; Examples.B] sorted = Some chain ∧
    chain ≡ₚ [Examples.C; Examples.A; Examples.B] ∧
    entries h' sorted = Some out ∧
    Forall2 flagged chain out ∧
    chained "main" out.
Proof.
  apply (sortPullRequests_chain_order github.Ready
           [Examples.C; Examples.A; Examples.B] [0; 1; 2] Examples.cfg "main"
           [Examples.C; Examples.A; Examples.B]).
  - reflexivity.
  - split.
    + apply (bool_decide_unpack _). vm_compute. exact I.
    + exists [Examples.A; Examples.B; Examples.C]. split.
      * apply (bool_decide_unpack _). vm_compute. exact I.
      * apply linked_chained. simpl. repeat split; reflexivity.
Defined.

(** Where the chain forks the greedy scan can take the wrong branch: the
    entries below line up as [A], [F], [G] on [main], but [G] merges into
    [main] as well and is found first. *)
Example sortPullRequests_fork :
  let F := Examples.pr 2 "0000000b" "main" Examples.brA true false in
  let G := Examples.pr 3 "0000000c" Examples.brC "main" true false in
  chained "main" [Examples.A; F; G] ∧
  ∃ h', sortPullRequests github.Ready [G; Examples.A; F] [0; 1; 2]
          Examples.cfg "main" = Some ([0; 1; 2], h') ∧
        ∃ out, entries h' [0; 1; 2] = Some out ∧ ¬ chained "main" out.
Proof.
  intros F G. split.
  - apply linked_chained. simpl. repeat split; reflexivity.
  - eexists. split; [vm_compute; reflexivity|].
    eexists. split; [vm_compute; reflexivity|].
    intros [_ H]. specialize (H 0 _ _ eq_refl eq_refl). discriminate H.
Qed.

(** A stack with an entry that is not ready between two ready ones:
    [A], [B_notReady], [C].  Only [A] is flagged, although [C] is ready by
    itself. *)
Example sortPullRequests_not_ready_in_the_middle :
  github.Ready Examples.cfg Examples.C = true ∧
  ∃ h' out,
    sortPullRequests github.Ready
      [Examples.C; Examples.A; Examples.B_notReady] [0; 1; 2]
      Examples.cfg "main" = Some ([1; 2; 0], h') ∧
    entries h' [1; 2; 0] = Some out ∧
    ID <$> out = ID <$> [Examples.A; Examples.B_notReady; Examples.C] ∧
    Stacked ∘ MergeStatus <$> out = [true; false; false].
Proof. split; [reflexivity|]. eexists _, _. vm_compute. repeat split. Qed.

Lemma sortPullRequests_stacked_prefix_witness :
  ∃ sorted h' out,
    sortPullRequests github.Ready
      [Examples.C; Examples.A; Examples.B_notReady] [0; 1; 2]
      Examples.cfg "main" = Some (sorted, h') ∧
    entries h' sorted = Some out ∧
    stackedPrefix out.
Proof.
  apply (sortPullRequests_stacked_prefix github.Ready
           [Examples.C; Examples.A; Examples.B_notReady] [0; 1; 2]
           Examples.cfg "main").
  - apply (bool_decide_unpack _). vm_compute. exact I.
  - intros p Hp.
    repeat (apply elem_of_cons in Hp as [->|Hp]; [eexists; split; reflexivity|]).
    by apply elem_of_nil in Hp.
Defined.

(** C2 as stated fails: an entry that comes in with its flag set keeps it
    behind an entry that is not ready. *)
Lemma sortPullRequests_stacked_not_prefix :
  sortPullRequests github.Ready [Examples.A_notReady; Examples.B_stacked]
    [0; 1] Examples.cfg "main"
  = Some ([0; 1], [Examples.A_notReady; Examples.B_stacked]) ∧
  entries [Examples.A_notReady; Examples.B_stacked] [0; 1]
  = Some [Examples.A_notReady; Examples.B_stacked] ∧
  ¬ stackedPrefix [Examples.A_notReady; Examples.B_stacked].
Proof.
  split; [vm_compute; reflexivity|]. split; [reflexivity|].
  intros H.
  specialize (H 0 1 Examples.A_notReady Examples.B_stacked
                eq_refl eq_refl (Nat.lt_0_succ 0) eq_refl).
  discriminate H.
Qed.

(** The same object twice in the slice breaks the prefix as well, with all
    flags unset on input: the flag set through the first occurrence shows
    through the second one, behind the entry that is not ready. *)
Example sortPullRequests_aliased :
  sortPullRequests github.Ready [Examples.A; Examples.A_notReady]
    [0; 1; 0] Examples.cfg "main"
  = Some ([0; 1; 0], [setStacked Examples.A; Examples.A_notReady]) ∧
  ¬ stackedPrefix [Examples.A_notReady; setStacked Examples.A].
Proof.
  split; [vm_compute; reflexivity|].
  intros H.
  specialize (H 0 1 Examples.A_notReady (setStacked Examples.A)
                eq_refl eq_refl (Nat.lt_0_succ 0) eq_refl).
  discriminate H.
Qed.

Lemma sortPullRequests_unmatched_target_witness :
  sortLoop [Examples.X_gone; Examples.Y_lost; Examples.Z_main] [2; 1; 0]
    (FromBranch Examples.Z_main) 1 (length [0; 1; 2] - 1)
  = Some ([2; 1; 0], FromBranch Examples.Z_main) ∧
  ∃ h', sortPullRequests github.Ready
          [Examples.X_gone; Examples.Y_lost; Examples.Z_main] [0; 1; 2]
          Examples.cfg "main" = Some ([2; 1; 0], h').
Proof.
  apply (sortPullRequests_unmatched_target github.Ready
           [Examples.X_gone; Examples.Y_lost; Examples.Z_main] [0; 1; 2]
           Examples.cfg "main" 1 [2; 1; 0] (FromBranch Examples.Z_main)).
  - repeat constructor; eexists; reflexivity.
  - simpl; lia.
  - vm_compute; reflexivity.
  - intros k p v Hk Hp Hv.
    destruct k as [|[|[|k]]]; [lia|..]; simpl in Hp; simplify_eq;
      simpl in Hv; simplify_eq; (intros Heq; discriminate Heq).
Defined.

(** C4 as stated fails: the swap that brings [Z_main] to the front moves
    [X_gone] behind [Y_lost], and that is the order in which the two are
    left when no entry matches the next target. *)
Lemma sortPullRequests_remaining_reordered :
  sortLoop [Examples.X_gone; Examples.Y_lost; Examples.Z_main] [0; 1; 2]
    "main" 0 1 = Some ([2; 1; 0], FromBranch Examples.Z_main) ∧
  scan [Examples.X_gone; Examples.Y_lost; Examples.Z_main] [2; 1; 0]
    (FromBranch Examples.Z_main) 1 2 = Some None ∧
  sortPullRequests github.Ready
    [Examples.X_gone; Examples.Y_lost; Examples.Z_main] [0; 1; 2]
    Examples.cfg "main"
  = Some ([2; 1; 0], [Examples.X_gone; Examples.Y_lost; Examples.Z_main]) ∧
  drop 1 [2; 1; 0] = [1; 0] ∧
  ¬ ([1; 0] `sublist_of` [0; 1; 2]).
Proof.
  split; [vm_compute; reflexivity|]. split; [vm_compute; reflexivity|].
  split; [vm_compute; reflexivity|]. split; [reflexivity|].
  intros H.
  repeat match goal with
         | H : _ `sublist_of` _ |- _ => inversion H; clear H; simplify_eq
         end.
Qed.

Lemma sortPullRequests_keeps_stacked_witness :
  ∃ sorted h',
    sortPullRequests github.Ready [Examples.A_notReady; Examples.B_stacked]
      [0; 1] Examples.cfg "main" = Some (sorted, h') ∧
    sorted ≡ₚ [0; 1] ∧
    (∀ p v, [Examples.A_notReady; Examples.B_stacked] !! p = Some v →
            ∃ v', h' !! p = Some v' ∧ flagged v v') ∧
    (∀ p v, [Examples.A_notReady; Examples.B_stacked] !! p = Some v →
            Stacked (MergeStatus v) = true → h' !! p = Some v) ∧
    (∀ out k j a q b,
       entries h' sorted = Some out →
       out !! k = Some a → Stacked (MergeStatus a) = false → k < j →
       sorted !! j = Some q →
       [Examples.A_notReady; Examples.B_stacked] !! q = Some b →
       Stacked (MergeStatus b) = true →
       ¬ stackedPrefix out).
Proof.
  apply (sortPullRequests_keeps_stacked github.Ready
           [Examples.A_notReady; Examples.B_stacked] [0; 1]
           Examples.cfg "main").
  repeat constructor; eexists; reflexivity.
Defined.

(** * Facts about the branch identity codec *)

Section StringFacts.

Implicit Types (s t l : string).

Lemma append_String c s t : String c s +:+ t = String c (s +:+ t).
Proof. done. Qed.

Lemma append_nil_l t : "" +:+ t = t.
Proof. done. Qed.

Lemma length_append s t :
  String.length (s +:+ t) = String.length s + String.length t.
Proof.
  induction s as [|c s IH]; [done|]. rewrite append_String. simpl.
  by rewrite IH.
Qed.

Lemma append_assoc s t l : (s +:+ t) +:+ l = s +:+ (t +:+ l).
Proof.
  induction s as [|c s IH]; [done|]. rewrite !append_String. by rewrite IH.
Qed.

Lemma append_nil_r s : s +:+ "" = s.
Proof.
  induction s as [|c s IH]; [done|]. rewrite append_String. by rewrite IH.
Qed.

Lemma take_append s t : GoString.take (String.length s) (s +:+ t) = s.
Proof.
  induction s as [|c s IH]; [done|]. rewrite append_String. simpl.
  by rewrite IH.
Qed.

Lemma take_all s : GoString.take (String.length s) s = s.
Proof. rewrite <-(append_nil_r s) at 2. apply take_append. Qed.

End StringFacts.

Section RegexpFacts.

Import regexp.

Implicit Types (s t l : string) (cls : ascii → bool).

Lemma consumed_append s t : consumed (s +:+ t) t = s.
Proof.
  unfold consumed. rewrite length_append.
  replace (String.length s + String.length t - String.length t)
    with (String.length s) by lia.
  apply take_append.
Qed.

Lemma consumed_all s : consumed s "" = s.
Proof. unfold consumed. simpl. rewrite Nat.sub_0_r. apply take_all. Qed.

Lemma lit_append l s : lit l (l +:+ s) = Some s.
Proof.
  induction l as [|a l IH]; [done|]. rewrite append_String. simpl.
  by rewrite decide_True.
Qed.

Lemma FindStringSubmatch_here r s m :
  matchHere r s = Some m → FindStringSubmatch r s = Some m.
Proof. intros H. destruct s; simpl; by rewrite H. Qed.

Lemma lit_length l s s' :
  lit l s = Some s' → String.length s = String.length l + String.length s'.
Proof.
  revert s. induction l as [|a l IH]; intros [|c s]; simpl; try done.
  - by intros [= <-].
  - by intros [= <-].
  - destruct (decide (c = a)); [|done]. intros H. by rewrite (IH _ H).
Qed.

Lemma rep_exact cls n s :
  String.length s = n → GoString.all cls s = true → rep cls n s = Some "".
Proof.
  revert s. induction n as [|n IH]; intros [|c s]; simpl; try done.
  intros [= Hn] [Hc Hs]%andb_prop. rewrite Hc. by apply IH.
Qed.

Lemma rep_length cls n s s' :
  rep cls n s = Some s' → String.length s = n + String.length s'.
Proof.
  revert s. induction n as [|n IH]; intros s; simpl.
  - by intros [= <-].
  - destruct s as [|c s]; [done|]. destruct (cls c); [|done].
    intros H. simpl. by rewrite (IH _ H).
Qed.

(** [cls+] on a text that the rest of the pattern rejects at every
    shorter suffix finds nothing. *)
Lemma plus_None {R} cls t (k : string → option R) :
  (∀ s', String.length s' < String.length t → k s' = None) →
  plus cls t k = None.
Proof.
  induction t as [|c t IH]; intros Hk; simpl; [done|].
  destruct (cls c); [|done].
  rewrite IH.
  - apply Hk. simpl. lia.
  - intros s' Hs'. apply Hk. simpl. lia.
Qed.

(** [cls+] takes the whole of a run [b] of the class when it cannot go
    on after it and the rest of the pattern matches there. *)
Lemma plus_run {R} cls b t (k : string → option R) r :
  b ≠ "" → GoString.all cls b = true →
  plus cls t k = None → k t = Some r →
  plus cls (b +:+ t) k = Some r.
Proof.
  intros Hb Hall Ht Hk. induction b as [|c b IH]; [done|].
  rewrite append_String. simpl in *.
  apply andb_prop in Hall as [Hc Hall]. rewrite Hc.
  destruct b as [|c' b].
  - rewrite append_nil_l. by rewrite Ht.
  - by rewrite IH.
Qed.

Lemma plus_stop {R} cls c t (k : string → option R) :
  cls c = false → plus cls (String c t) k = None.
Proof. intros Hc. simpl. by rewrite Hc. Qed.

End RegexpFacts.

Section CodecFacts.

Import regexp.

(** The tail [/([a-f0-9]{8})$] of the pattern needs nine bytes. *)
Lemma fingerprint_tail_short s caps k :
  String.length s < 9 →
  exec (Cat (Lit "/") (Cat (Capture 2 (Repeat hexClass 8)) EndText))
    s caps k = None.
Proof.
  intros Hlen. cbn [exec].
  destruct (lit "/" s) as [s1|] eqn:H1; [|done].
  apply lit_length in H1. simpl in H1.
  destruct (rep hexClass 8 s1) as [s2|] eqn:H2; [|done].
  apply rep_length in H2. lia.
Qed.

Lemma fingerprint_tail_match f caps k :
  String.length f = 8 → GoString.all hexClass f = true →
  exec (Cat (Lit "/") (Cat (Capture 2 (Repeat hexClass 8)) EndText))
    ("/" +:+ f) caps k
  = k "" (<[2 := f]> caps).
Proof.
  intros Hlen Hhex. cbn [exec].
  rewrite (lit_append "/" f), (rep_exact hexClass 8 f Hlen Hhex).
  by rewrite consumed_all.
Qed.

Lemma matchHere_branch_name u b f :
  u ≠ "" → GoString.all userClass u = true →
  b ≠ "" → GoString.all branchClass b = true →
  String.length f = 8 → GoString.all hexClass f = true →
  matchHere BranchNameRegex ("pr/" +:+ u +:+ "/" +:+ b +:+ "/" +:+ f)
  = Some ["pr/" +:+ u +:+ "/" +:+ b +:+ "/" +:+ f; b; f].
Proof.
  intros Hu Hua Hb Hba Hf Hfa.
  unfold matchHere.
  set (whole := "pr/" +:+ u +:+ "/" +:+ b +:+ "/" +:+ f).
  set (k0 := λ (s' : string) (caps : list string),
               Some (<[0 := consumed whole s']> caps)).
  change (exec BranchNameRegex whole _ k0) with
    (match lit "pr/" whole with
     | Some s1 =>
         plus userClass s1 (λ s2,
           match lit "/" s2 with
           | Some s3 =>
               plus branchClass s3 (λ s4,
                 exec (Cat (Lit "/")
                         (Cat (Capture 2 (Repeat hexClass 8)) EndText))
                   s4 (<[1 := consumed s3 s4]> [""; ""; ""]) k0)
           | None => None
           end)
     | None => None
     end).
  unfold whole at 1. rewrite (lit_append "pr/").
  apply plus_run; [done|done|by apply plus_stop|].
  rewrite (lit_append "/").
  apply plus_run; [done|done|..].
  - apply plus_None. intros s' Hs'.
    apply fingerprint_tail_short.
    rewrite length_append, Hf in Hs'. simpl in Hs'. lia.
  - rewrite fingerprint_tail_match by done.
    unfold k0. by rewrite consumed_append, consumed_all.
Qed.

End CodecFacts.

(** C3, as amended. For every non-empty user identity [u] made of allowed
    characters, every non-empty local branch [b] made of allowed branch-name
    characters and every fingerprint [f] of exactly 8 lowercase hexadecimal
    characters, matching the encoded name ["pr/" + u + "/" + b + "/" + f]
    against [BranchNameRegex] succeeds and yields exactly [(b, f)]. *)
Theorem BranchNameRegex_roundtrip (info : GitHubInfo) (commit : git.Commit) :
  UserName info ≠ "" →
  GoString.all userClass (UserName info) = true →
  LocalBranch info ≠ "" →
  GoString.all branchClass (LocalBranch info) = true →
  String.length (git.CommitID commit) = 8 →
  GoString.all hexClass (git.CommitID commit) = true →
  ∃ whole,
    FindStringSubmatch BranchNameRegex (branchNameFromCommit info commit)
    = Some [whole; LocalBranch info; git.CommitID commit].
Proof.
  intros Hu Hua Hb Hba Hf Hfa. exists (branchNameFromCommit info commit).
  apply FindStringSubmatch_here. unfold branchNameFromCommit.
  by apply matchHere_branch_name.
Qed.

Lemma BranchNameRegex_roundtrip_witness :
  ∃ whole,
    FindStringSubmatch BranchNameRegex
      (branchNameFromCommit
         {| UserName := "ejoffe"; RepositoryID := "R_1";
            LocalBranch := "feature/stack.v2"; PullRequests := [] |}
         {| git.CommitID := "deadbeef"; git.CommitHash := "";
            git.Subject := ""; git.Body := "" |})
    = Some [whole; "feature/stack.v2"; "deadbeef"].
Proof.
  apply (BranchNameRegex_roundtrip
           {| UserName := "ejoffe"; RepositoryID := "R_1";
              LocalBranch := "feature/stack.v2"; PullRequests := [] |}
           {| git.CommitID := "deadbeef"; git.CommitHash := "";
              git.Subject := ""; git.Body := "" |});
    simpl; (discriminate || reflexivity).
Defined.

(** C3 as stated fails for the empty user identity and for the empty local
    branch: every byte of the empty string is allowed, and the encoded name
    does not match. *)
Lemma BranchNameRegex_empty_component :
  GoString.all userClass "" = true ∧
  GoString.all branchClass "main" = true ∧
  String.length "deadbeef" = 8 ∧
  GoString.all hexClass "deadbeef" = true ∧
  FindStringSubmatch BranchNameRegex
    (branchNameFromCommit
       {| UserName := ""; RepositoryID := "R_1";
          LocalBranch := "main"; PullRequests := [] |}
       {| git.CommitID := "deadbeef"; git.CommitHash := "";
          git.Subject := ""; git.Body := "" |})
  = None ∧
  GoString.all userClass "u" = true ∧
  GoString.all branchClass "" = true ∧
  FindStringSubmatch BranchNameRegex
    (branchNameFromCommit
       {| UserName := "u"; RepositoryID := "R_1";
          LocalBranch := ""; PullRequests := [] |}
       {| git.CommitID := "deadbeef"; git.CommitHash := "";
          git.Subject := ""; git.Body := "" |})
  = None.
Proof. repeat split; vm_compute; reflexivity. Qed.

(** * Facts about the stack body formatter *)

Section FormatterFacts.

Variable TrimSpace : string → string.

Implicit Types (h vs : list PullRequest) (stack : list nat).
Implicit Types (commit : git.Commit) (buf : string).

Lemma join_cons line lines : join (line :: lines) = line +:+ join lines.
Proof. done. Qed.

(** After [n] rounds the buffer has grown by the lines of the entries
    [n - 1], ..., [0], in this order. *)
Lemma formatStackMarkdown_loop_lines h commit stack vs n buf :
  Forall2 (λ p v, h !! p = Some v) stack vs →
  n ≤ length stack →
  formatStackMarkdown_loop h commit stack n buf
  = Some (buf +:+ join (stackLine commit <$> reverse (take n vs))).
Proof.
  intros HF. revert buf. induction n as [|n IH]; intros buf Hn; simpl.
  - by rewrite append_nil_r.
  - destruct (lookup_lt_is_Some_2 stack n) as [p Hp]; [lia|].
    destruct (Forall2_lookup_l _ _ _ _ _ HF Hp) as (v & Hv & Hpv).
    rewrite Hp; simpl. rewrite Hpv; simpl.
    rewrite IH by lia.
    rewrite (take_S_r _ _ _ Hv), reverse_snoc, fmap_cons, join_cons.
    unfold stackLine, bool_decide. rewrite !append_assoc.
    by destruct (decide_rel eq (Commit v) commit).
Qed.

Lemma formatStackMarkdown_lines h commit stack vs :
  entries h stack = Some vs →
  formatStackMarkdown h commit stack
  = Some (join (stackLine commit <$> reverse vs)).
Proof.
  intros He. apply mapM_Some in He.
  unfold formatStackMarkdown.
  rewrite (formatStackMarkdown_loop_lines h commit stack vs) by done.
  rewrite (Forall2_length _ _ _ He), firstn_all. done.
Qed.

(** C6, as amended. For a stack of two or more entries and any commit,
    [formatBody] lists one [- #<number>] bullet per entry, iterating from
    the last slice index to the first: the entry at index [i] is on line
    [len - 1 - i], so the entry at the last index is printed first and the
    entry at index 0, which is the trunk-adjacent one in the order of
    [sortPullRequests], is printed last.  The directional marker is
    appended to exactly the entries whose commit equals the input commit
    by value equality. *)
Theorem formatBody_stack_lines h commit stack vs :
  2 ≤ length stack →
  entries h stack = Some vs →
  ∃ lines,
    formatBody TrimSpace h commit stack = Some (stackBody commit (join lines)) ∧
    length lines = length stack ∧
    ∀ i pr, vs !! i = Some pr →
      lines !! (length stack - 1 - i)
      = Some ("- #" +:+ pretty (Number pr)
              +:+ (if decide (Commit pr = commit) then " ⬅" else "")
              +:+ GoString.LF).
Proof.
  intros Hlen He.
  assert (length vs = length stack) as Hl.
  { symmetry. apply mapM_Some in He. by eapply Forall2_length. }
  exists (stackLine commit <$> reverse vs). split; [|split].
  - unfold formatBody, stackBody.
    rewrite decide_False by lia.
    rewrite (formatStackMarkdown_lines _ _ _ _ He).
    by destruct (decide (git.Body commit = "")).
  - by rewrite length_fmap, length_reverse.
  - intros i pr Hi.
    assert (i < length vs) by (by eapply lookup_lt_Some).
    rewrite list_lookup_fmap, reverse_lookup by lia.
    replace (length vs - S (length stack - 1 - i)) with i by lia.
    by rewrite Hi.
Qed.

(** C7. For every commit and every stack of at most one entry, the empty
    stack included, [formatBody] returns the commit's own body trimmed of
    surrounding white space, and nothing else: no heading, no stack block
    and no merge notice. *)
Theorem formatBody_lone h commit stack :
  length stack ≤ 1 →
  formatBody TrimSpace h commit stack = Some (TrimSpace (git.Body commit)).
Proof. intros Hlen. unfold formatBody. by rewrite decide_True. Qed.

End FormatterFacts.

Lemma formatBody_stack_lines_witness :
  ∃ lines,
    formatBody GoString.TrimSpaceASCII [Examples.A; Examples.B; Examples.C]
      (Commit Examples.B) [0; 1; 2]
    = Some (stackBody (Commit Examples.B) (join lines)) ∧
    length lines = length [0; 1; 2] ∧
    ∀ i pr, [Examples.A; Examples.B; Examples.C] !! i = Some pr →
      lines !! (length [0; 1; 2] - 1 - i)
      = Some ("- #" +:+ pretty (Number pr)
              +:+ (if decide (Commit pr = Commit Examples.B) then " ⬅" else "")
              +:+ GoString.LF).
Proof.
  apply (formatBody_stack_lines GoString.TrimSpaceASCII
           [Examples.A; Examples.B; Examples.C] (Commit Examples.B) [0; 1; 2]
           [Examples.A; Examples.B; Examples.C]).
  - simpl; lia.
  - reflexivity.
Defined.

(** C6 as stated fails: on the stack in the order [sortPullRequests]
    returns it in, the trunk-adjacent entry (number 1, merging into
    [main]) is at index 0 and is printed last; the block starts with the
    entry at the last index. *)
Lemma formatBody_trunk_adjacent_last :
  sortPullRequests github.Ready [Examples.B; Examples.A] [0; 1]
    Examples.cfg "main"
  = Some ([1; 0], [setStacked Examples.B; setStacked Examples.A]) ∧
  ToBranch Examples.A = "main" ∧
  formatStackMarkdown [setStacked Examples.B; setStacked Examples.A]
    (Commit Examples.B) [1; 0]
  = Some ("- #2 ⬅" +:+ GoString.LF +:+ "- #1" +:+ GoString.LF) ∧
  ∀ md, formatStackMarkdown [setStacked Examples.B; setStacked Examples.A]
          (Commit Examples.B) [1; 0] = Some md →
        GoString.HasPrefix md (stackLine (Commit Examples.B) Examples.A) = false.
Proof.
  split; [vm_compute; reflexivity|]. split; [reflexivity|].
  split; [vm_compute; reflexivity|].
  intros md. vm_compute. intros [= <-]. reflexivity.
Qed.

Lemma formatBody_lone_witness :
  formatBody GoString.TrimSpaceASCII [Examples.A]
    {| git.CommitID := "0000000a"; git.CommitHash := "";
       git.Subject := "change 1";
       git.Body := "  fix the parser" +:+ GoString.LF |} [0]
  = Some (GoString.TrimSpaceASCII ("  fix the parser" +:+ GoString.LF)).
Proof.
  apply (formatBody_lone GoString.TrimSpaceASCII [Examples.A]
           {| git.CommitID := "0000000a"; git.CommitHash := "";
              git.Subject := "change 1";
              git.Body := "  fix the parser" +:+ GoString.LF |} [0]).
  simpl; lia.
Defined.

Example TrimSpaceASCII_example :
  GoString.TrimSpaceASCII ("  fix the parser" +:+ GoString.LF)
  = "fix the parser".
Proof. reflexivity. Qed.

(** * Facts about the client *)

Section MatchFacts.

Import regexp.

Lemma plus_Some {R} cls s (k : string → option R) r :
  plus cls s k = Some r → ∃ s', k s' = Some r.
Proof.
  induction s as [|c s IH]; simpl; [done|].
  destruct (cls c); [|done].
  destruct (plus cls s k) as [r'|] eqn:E.
  - intros [= <-]. by apply IH.
  - intros H. by exists s.
Qed.

(** Matching fills in captures and never adds or drops one. *)
Lemma exec_caps r : ∀ s caps k m,
  exec r s caps k = Some m →
  ∃ s' caps', length caps' = length caps ∧ k s' caps' = Some m.
Proof.
  induction r as [l|cls|cls n|i r IH|r1 IH1 r2 IH2|]; intros s caps k m; simpl.
  - destruct (lit l s) as [s'|]; [|done]. intros H. by exists s', caps.
  - intros [s' H]%plus_Some. by exists s', caps.
  - destruct (rep cls n s) as [s'|]; [|done]. intros H. by exists s', caps.
  - intros (s' & caps' & Hlen & H)%IH.
    exists s', (<[i := consumed s s']> caps'). by rewrite length_insert.
  - intros (s1 & caps1 & Hlen1 & H)%IH1.
    apply IH2 in H as (s2 & caps2 & Hlen2 & H).
    exists s2, caps2. split; [congruence|done].
  - destruct s; [|done]. intros H. by exists "", caps.
Qed.

Lemma FindStringSubmatch_length r s m :
  FindStringSubmatch r s = Some m → length m = S (NumSubexp r).
Proof.
  assert (∀ s, matchHere r s = Some m → length m = S (NumSubexp r)) as Hhere.
  { intros s0. unfold matchHere.
    intros (s' & caps' & Hlen & [= <-])%exec_caps.
    by rewrite length_insert, Hlen, length_replicate. }
  induction s as [|c s IH]; simpl.
  - destruct (matchHere r "") eqn:E; [|done]. intros [= <-]. by eapply Hhere.
  - destruct (matchHere r (String c s)) eqn:E.
    + intros [= <-]. by eapply Hhere.
    + done.
Qed.

End MatchFacts.

Section BranchFacts.

Lemma GetRemoteBranchName_Some gitcmd repoConfig branchname :
  getLocalBranchName gitcmd = Some branchname →
  GetRemoteBranchName gitcmd repoConfig
  = Some (GetRemoteBranchName_loop branchname
            (config.RemoteBranches repoConfig)
            (config.GitHubBranch repoConfig)).
Proof. intros H. unfold GetRemoteBranchName. by rewrite H. Qed.

(** The target is one of the remote branches or the default branch. *)
Lemma GetRemoteBranchName_loop_cases branchname remotes default :
  (branchname ∈ remotes ∧
   GetRemoteBranchName_loop branchname remotes default = branchname)
  ∨ ((branchname ∉ remotes) ∧
     GetRemoteBranchName_loop branchname remotes default = default).
Proof.
  induction remotes as [|r remotes IH]; simpl.
  - right. split; [apply not_elem_of_nil|done].
  - destruct (decide (branchname = r)) as [->|Hne].
    + left. split; [by left|done].
    + destruct IH as [[? ->]|[? ->]].
      * left. split; [by right|done].
      * right. split; [|done]. by apply not_elem_of_cons.
Qed.

End BranchFacts.

Section GetInfoFacts.

Variable Ready : config.Config → PullRequest → bool.

Implicit Types (resp : genclient.response.t) (node : genclient.node.t).
Implicit Types (nodes : list genclient.node.t) (branchname : string).
Implicit Types (w : World) (requests : list nat).

(** *** One node of the response *)

Lemma GetInfo_node_skip resp branchname node :
  inStack resp branchname node = false →
  GetInfo_node resp branchname node = Some None.
Proof.
  unfold inStack, GetInfo_node. intros H.
  destruct (decide (genclient.response.RepositoryId resp
                    ≠ genclient.node.RepositoryId node)) as [|Heq]; [done|].
  apply dec_stable in Heq. rewrite bool_decide_eq_true_2 in H by done.
  simpl in H.
  destruct (FindStringSubmatch BranchNameRegex _) as [matches|] eqn:E; [|done].
  pose proof (FindStringSubmatch_length _ _ _ E) as Hlen.
  destruct (lookup_lt_is_Some_2 matches 1) as [m1 Hm1]; [simpl in Hlen; lia|].
  rewrite Hm1 in *. simpl.
  destruct (decide (m1 = branchname)) as [->|]; [|done].
  by rewrite bool_decide_eq_true_2 in H.
Qed.

Lemma GetInfo_node_accept resp branchname node commit rest :
  inStack resp branchname node = true →
  genclient.node.Commits node = Some (commit :: rest) →
  ∃ pr, GetInfo_node resp branchname node = Some (Some pr) ∧
    ID pr = genclient.node.Id node ∧
    FromBranch pr = genclient.node.HeadRefName node ∧
    ToBranch pr = genclient.node.BaseRefName node ∧
    git.CommitHash (Commit pr) = genclient.commit.Oid commit ∧
    Stacked (MergeStatus pr) = false ∧
    (rollupUnusable commit → ChecksPass (MergeStatus pr) = CheckStatusFail).
Proof.
  unfold inStack, GetInfo_node. intros H Hc.
  apply andb_prop in H as [Hrepo H]. apply bool_decide_eq_true in Hrepo.
  rewrite decide_False by (by intros ?).
  destruct (FindStringSubmatch BranchNameRegex _) as [matches|] eqn:E; [|done].
  apply bool_decide_eq_true in H.
  pose proof (FindStringSubmatch_length _ _ _ E) as Hlen.
  destruct (lookup_lt_is_Some_2 matches 2) as [m2 Hm2]; [simpl in Hlen; lia|].
  rewrite H; simpl. rewrite decide_True by done.
  rewrite Hc; simpl. rewrite Hm2; simpl.
  eexists. split; [done|]. simpl. repeat split.
  unfold rollupUnusable.
  destruct (genclient.commit.StatusCheckRollup commit) as [state|]; [|done].
  intros [? ?]. by rewrite !decide_False.
Qed.

Lemma GetInfo_node_in resp branchname node :
  inStack resp branchname node = true →
  GetInfo_node resp branchname node = None
  ∨ ∃ pr, GetInfo_node resp branchname node = Some (Some pr).
Proof.
  intros H.
  destruct (genclient.node.Commits node) as [[|commit rest]|] eqn:Hc.
  2:{ right. destruct (GetInfo_node_accept _ _ _ _ _ H Hc) as (pr & ? & _).
      by exists pr. }
  all: left; unfold inStack, GetInfo_node in *.
  all: apply andb_prop in H as [Hrepo H]; apply bool_decide_eq_true in Hrepo.
  all: rewrite decide_False by (by intros ?).
  all: destruct (FindStringSubmatch BranchNameRegex _) as [matches|]; [|done].
  all: apply bool_decide_eq_true in H; rewrite H; simpl.
  all: rewrite decide_True by done; by rewrite Hc.
Qed.

Lemma GetInfo_node_inv resp branchname node pr :
  GetInfo_node resp branchname node = Some (Some pr) →
  inStack resp branchname node = true ∧
  FromBranch pr = genclient.node.HeadRefName node ∧
  Stacked (MergeStatus pr) = false.
Proof.
  intros H. destruct (inStack resp branchname node) eqn:E.
  - unfold GetInfo_node in H.
    repeat (case_match; simplify_option_eq; try done).
  - by rewrite GetInfo_node_skip in H.
Qed.

(** *** The loop over the nodes *)

Lemma GetInfo_loop_eq resp branchname nodes requests w :
  GetInfo_loop resp branchname nodes requests w =
  match accepted resp branchname nodes with
  | Some vs =>
      Some (requests ++ seq (length (heap w)) (length vs),
            {| heap := heap w ++ vs; calls := calls w |})
  | None => None
  end.
Proof.
  unfold accepted.
  revert requests w. induction nodes as [|node nodes IH]; intros requests w.
  - simpl. destruct w. by rewrite !app_nil_r.
  - cbn [GetInfo_loop mapM]. unfold mbind at 1, M_bind, lift.
    destruct (GetInfo_node resp branchname node) as [[pr|]|]; simpl; [| |done].
    + unfold mbind at 1, M_bind, alloc. rewrite IH. simpl.
      destruct (mapM (GetInfo_node resp branchname) nodes) as [rs|]; simpl; [|done].
      rewrite length_app, Nat.add_1_r. simpl.
      by rewrite <-!app_assoc.
    + rewrite IH.
      by destruct (mapM (GetInfo_node resp branchname) nodes) as [rs|].
Qed.

Lemma accepted_returns resp branchname nodes :
  (∀ node, node ∈ nodes → inStack resp branchname node = true →
           ∃ commit rest, genclient.node.Commits node = Some (commit :: rest)) →
  is_Some (accepted resp branchname nodes).
Proof.
  intros Hc. unfold accepted. apply fmap_is_Some, mapM_is_Some_2.
  apply Forall_forall. intros node Hin. simpl.
  destruct (inStack resp branchname node) eqn:E.
  - destruct (Hc node Hin E) as (commit & rest & Hcs).
    destruct (GetInfo_node_accept _ _ _ _ _ E Hcs) as (pr & -> & _). done.
  - by rewrite GetInfo_node_skip.
Qed.

Lemma accepted_heads resp branchname nodes vs :
  accepted resp branchname nodes = Some vs →
  FromBranch <$> vs
  = genclient.node.HeadRefName <$> filter (λ node, inStack resp branchname node = true) nodes.
Proof.
  unfold accepted. revert vs. induction nodes as [|node nodes IH]; intros vs.
  - by intros [= <-].
  - cbn [mapM]. intros H.
    destruct (GetInfo_node resp branchname node) as [[pr|]|] eqn:E;
      simpl in H; [| |done].
    + destruct (mapM (GetInfo_node resp branchname) nodes) as [rs|];
        simpl in H; [|done].
      simplify_eq. simpl.
      apply GetInfo_node_inv in E as (Hin & Hhead & _).
      rewrite filter_cons_True by done. simpl. rewrite Hhead.
      f_equal. by apply IH.
    + destruct (mapM (GetInfo_node resp branchname) nodes) as [rs|];
        simpl in H; [|done].
      simplify_eq. simpl.
      rewrite filter_cons_False; [by apply IH|].
      intros Hin. destruct (GetInfo_node_in _ _ _ Hin) as [?|[? ?]]; congruence.
Qed.

Lemma accepted_elem resp branchname nodes vs node pr :
  accepted resp branchname nodes = Some vs →
  node ∈ nodes → GetInfo_node resp branchname node = Some (Some pr) →
  pr ∈ vs.
Proof.
  unfold accepted. intros H Hin Hn.
  destruct (mapM (GetInfo_node resp branchname) nodes) as [rs|] eqn:E;
    simpl in H; [|done].
  simplify_eq. apply mapM_Some in E.
  apply list_elem_of_lookup_1 in Hin as [i Hi].
  destruct (Forall2_lookup_l _ _ _ _ _ E Hi) as (r & Hr & Hnr).
  apply list_elem_of_omap. exists (Some pr). split; [|done].
  apply list_elem_of_lookup_2 with i. congruence.
Qed.

Lemma accepted_unset resp branchname nodes vs pr :
  accepted resp branchname nodes = Some vs → pr ∈ vs →
  Stacked (MergeStatus pr) = false ∧
  ∃ node, node ∈ nodes ∧ GetInfo_node resp branchname node = Some (Some pr).
Proof.
  unfold accepted. intros H Hin.
  destruct (mapM (GetInfo_node resp branchname) nodes) as [rs|] eqn:E;
    simpl in H; [|done].
  simplify_eq. apply mapM_Some in E.
  apply list_elem_of_omap in Hin as (r & Hr & Hid). simpl in Hid. subst r.
  apply list_elem_of_lookup_1 in Hr as [i Hi].
  destruct (Forall2_lookup_r _ _ _ _ _ E Hi) as (node & Hnode & Hn).
  split.
  - by apply GetInfo_node_inv in Hn as (_ & _ & ?).
  - exists node. split; [by eapply list_elem_of_lookup_2|done].
Qed.

End GetInfoFacts.

Section SnapshotFacts.

Variable Ready : config.Config → PullRequest → bool.

Implicit Types (h : list PullRequest) (vs out : list PullRequest).
Implicit Types (w : World) (c : client).

Lemma entries_fresh h vs :
  entries (h ++ vs) (seq (length h) (length vs)) = Some vs.
Proof.
  apply mapM_Some, Forall2_same_length_lookup_2.
  - by rewrite length_seq.
  - intros i p v Hp Hv. apply lookup_seq in Hp as [-> _]. simpl.
    rewrite lookup_app_r by lia.
    by replace (length h + i - length h) with i by lia.
Qed.

Lemma entries_Permutation h (l l' : list nat) vs :
  l ≡ₚ l' → entries h l = Some vs →
  ∃ vs', entries h l' = Some vs' ∧ vs ≡ₚ vs'.
Proof.
  unfold entries. intros Hperm. revert vs.
  induction Hperm as [|p l l' _ IH|p q l|l1 l2 l3 _ IH1 _ IH2]; intros vs.
  - intros [= <-]. by exists [].
  - intros (v & vs0 & Hv & H & ->)%mapM_Some%Forall2_cons_inv_l.
    apply mapM_Some in H. destruct (IH _ H) as (vs' & Hvs' & Hp).
    exists (v :: vs'). split; [|by constructor].
    apply mapM_Some. constructor; [done|]. by apply mapM_Some.
  - intros (v & vs0 & Hv & H & ->)%mapM_Some%Forall2_cons_inv_l.
    apply Forall2_cons_inv_l in H as (u & vs1 & Hu & H & ->).
    exists (u :: v :: vs1). split; [|by constructor].
    apply mapM_Some. by repeat constructor.
  - intros H. destruct (IH1 _ H) as (vs2 & H2 & Hp12).
    destruct (IH2 _ H2) as (vs3 & H3 & Hp23).
    exists vs3. split; [done|]. by etrans.
Qed.

(** The snapshot [GetInfo] returns: it returns whenever the remote and git
    answer and every node of the stack carries its head commit, and its
    pull requests are those of [accepted], reordered and with the
    [Stacked] flag set on a prefix. *)
Lemma GetInfo_snapshot c gitcmd w resp branchname nodes :
  genclient.PullRequests (api c)
    (config.GitHubRepoOwner (config.Repo (config c)))
    (config.GitHubRepoName (config.Repo (config c))) = Some resp →
  getLocalBranchName gitcmd = Some branchname →
  genclient.response.Nodes resp = Some nodes →
  (∀ node, node ∈ nodes → inStack resp branchname node = true →
           ∃ commit rest, genclient.node.Commits node = Some (commit :: rest)) →
  ∃ info w' vs sortedvs out,
    GetInfo Ready c gitcmd w = Some (info, w') ∧
    LocalBranch info = branchname ∧
    accepted resp branchname nodes = Some vs ∧
    vs ≡ₚ sortedvs ∧
    entries (heap w') (PullRequests info) = Some out ∧
    Forall2 flagged sortedvs out ∧
    stackedPrefix out.
Proof.
  intros Hresp Hbranch Hnodes Hcommits.
  destruct (accepted_returns _ _ _ Hcommits) as [vs Hvs].
  set (h1 := heap w ++ vs).
  set (prs := seq (length (heap w)) (length vs)).
  destruct (sortPullRequests_distinct_unset Ready h1 prs (config c)
              (GetRemoteBranchName_loop branchname
                 (config.RemoteBranches (config.Repo (config c)))
                 (config.GitHubBranch (config.Repo (config c)))))
    as (sorted & h' & out & Hsort & Hperm & _ & Hfl & Hout & Hpre).
  { apply NoDup_seq. }
  { intros p [Hp1 Hp2]%elem_of_seq.
    destruct (lookup_lt_is_Some_2 vs (p - length (heap w))) as [v Hv]; [lia|].
    exists v. split.
    - unfold h1. by rewrite lookup_app_r by lia.
    - eapply accepted_unset; [done|]. by eapply list_elem_of_lookup_2. }
  destruct (entries_Permutation h1 prs sorted vs) as (sortedvs & Hsvs & Hpvs).
  { done. }
  { apply entries_fresh. }
  destruct (entries_flagged _ _ _ _ Hsvs Hfl) as (out' & Hout' & Hflag).
  assert (out' = out) as -> by congruence.
  eexists _, _, vs, sortedvs, out.
  split; [|split; [|split; [done|split; [done|split; [|done]]]]].
  - unfold GetInfo, mbind, M_bind, send, lift, getHeap, putHeap, mret, M_ret.
    rewrite Hresp, Hbranch, Hnodes, GetInfo_loop_eq, Hvs.
    rewrite (GetRemoteBranchName_Some _ _ _ Hbranch). simpl.
    unfold h1, prs in Hsort. rewrite Hsort. done.
  - done.
  - done.
Qed.

End SnapshotFacts.

(** * The claims on the client *)

Section ClientClaims.

Variable Ready : config.Config → PullRequest → bool.
Variable TrimSpace : string → string.

Implicit Types (c : client) (w : World) (info : GitHubInfo).

Lemma flagged_fields a b :
  flagged a b →
  ID b = ID a ∧ FromBranch b = FromBranch a ∧
  ChecksPass (MergeStatus b) = ChecksPass (MergeStatus a).
Proof. by intros [->| ->]. Qed.

Lemma inStack_decodes resp branchname node :
  inStack resp branchname node = true ↔
  genclient.response.RepositoryId resp = genclient.node.RepositoryId node ∧
  ∃ matches,
    FindStringSubmatch BranchNameRegex (genclient.node.HeadRefName node)
    = Some matches ∧
    matches !! 1 = Some branchname.
Proof.
  unfold inStack. rewrite andb_true_iff, bool_decide_eq_true.
  destruct (FindStringSubmatch BranchNameRegex _) as [matches|].
  - rewrite bool_decide_eq_true. split.
    + intros [? ?]. split; [done|]. by exists matches.
    + intros [? (m & [= <-] & ?)]. done.
  - split; [by intros [_ ?]|]. by intros [_ (m & ? & _)].
Qed.

(** C8. For every pull request accepted into the snapshot by [GetInfo],
    when the status-check rollup of the head commit is absent or its state
    is neither [SUCCESS] nor [PENDING], the checks signal is recorded as
    failing, and the fetch does not abort: [GetInfo] returns whenever the
    remote and git answer and the accepted nodes carry their head commit,
    whatever the rollups are. *)
Theorem GetInfo_checks_default_fail c gitcmd w resp branchname nodes :
  genclient.PullRequests (api c)
    (config.GitHubRepoOwner (config.Repo (config c)))
    (config.GitHubRepoName (config.Repo (config c))) = Some resp →
  getLocalBranchName gitcmd = Some branchname →
  genclient.response.Nodes resp = Some nodes →
  (∀ node, node ∈ nodes → inStack resp branchname node = true →
           ∃ commit rest, genclient.node.Commits node = Some (commit :: rest)) →
  ∃ info w',
    GetInfo Ready c gitcmd w = Some (info, w') ∧
    ∀ node commit rest,
      node ∈ nodes → inStack resp branchname node = true →
      genclient.node.Commits node = Some (commit :: rest) →
      rollupUnusable commit →
      ∃ p pr,
        p ∈ PullRequests info ∧ heap w' !! p = Some pr ∧
        ID pr = genclient.node.Id node ∧
        FromBranch pr = genclient.node.HeadRefName node ∧
        ChecksPass (MergeStatus pr) = CheckStatusFail.
Proof.
  intros Hresp Hbranch Hnodes Hcommits.
  destruct (GetInfo_snapshot Ready c gitcmd w resp branchname nodes
              Hresp Hbranch Hnodes Hcommits)
    as (info & w' & vs & sortedvs & out & HG & _ & Hvs & Hperm & Hout & Hflag & _).
  exists info, w'. split; [done|].
  intros node commit rest Hin Hst Hc Hroll.
  destruct (GetInfo_node_accept _ _ _ _ _ Hst Hc)
    as (v & Hv & Hid & Hfrom & _ & _ & _ & Hfail).
  assert (v ∈ sortedvs) as [i Hi]%list_elem_of_lookup_1.
  { rewrite <-Hperm. by eapply accepted_elem. }
  destruct (Forall2_lookup_l _ _ _ _ _ Hflag Hi) as (pr & Hpr & Hf).
  apply mapM_Some in Hout.
  destruct (Forall2_lookup_r _ _ _ _ _ Hout Hpr) as (p & Hp & Hpp).
  exists p, pr. apply flagged_fields in Hf as (-> & -> & ->).
  split; [by eapply list_elem_of_lookup_2|]. auto.
Qed.

(** C9. [GetInfo] includes a fetched pull request in the stack handed to
    the ordering only if its head branch name matches the structured branch
    pattern and the decoded local-branch component is the name of the
    checked-out local branch: every entry of the stack decodes to that
    branch, and the entries are those of the nodes that do (and are of the
    repository queried), so that a pull request whose head branch does not
    decode, or decodes to another local branch, is left out. *)
Theorem GetInfo_stack_membership c gitcmd w resp branchname nodes :
  genclient.PullRequests (api c)
    (config.GitHubRepoOwner (config.Repo (config c)))
    (config.GitHubRepoName (config.Repo (config c))) = Some resp →
  getLocalBranchName gitcmd = Some branchname →
  genclient.response.Nodes resp = Some nodes →
  (∀ node, node ∈ nodes → inStack resp branchname node = true →
           ∃ commit rest, genclient.node.Commits node = Some (commit :: rest)) →
  ∃ info w' out,
    GetInfo Ready c gitcmd w = Some (info, w') ∧
    LocalBranch info = branchname ∧
    entries (heap w') (PullRequests info) = Some out ∧
    (∀ pr, pr ∈ out →
       ∃ matches,
         FindStringSubmatch BranchNameRegex (FromBranch pr) = Some matches ∧
         matches !! 1 = Some branchname) ∧
    FromBranch <$> out
    ≡ₚ genclient.node.HeadRefName
         <$> filter (λ node, inStack resp branchname node = true) nodes ∧
    (∀ node,
       FindStringSubmatch BranchNameRegex (genclient.node.HeadRefName node) = None
       ∨ (∃ matches,
            FindStringSubmatch BranchNameRegex (genclient.node.HeadRefName node)
            = Some matches ∧ matches !! 1 ≠ Some branchname) →
       inStack resp branchname node = false).
Proof.
  intros Hresp Hbranch Hnodes Hcommits.
  destruct (GetInfo_snapshot Ready c gitcmd w resp branchname nodes
              Hresp Hbranch Hnodes Hcommits)
    as (info & w' & vs & sortedvs & out & HG & Hlb & Hvs & Hperm & Hout & Hflag & _).
  exists info, w', out. do 3 (split; [done|]).
  assert (FromBranch <$> out
          ≡ₚ genclient.node.HeadRefName
               <$> filter (λ node, inStack resp branchname node = true) nodes)
    as Hheads.
  { rewrite <-(accepted_heads _ _ _ _ Hvs), Hperm.
    assert (FromBranch <$> out = FromBranch <$> sortedvs) as ->; [|done].
    clear -Hflag.
    induction Hflag as [|a b l k Hab _ IH]; [done|]. rewrite !fmap_cons.
    apply flagged_fields in Hab as (_ & -> & _). by rewrite IH. }
  split; [|split; [done|]].
  - intros pr Hpr.
    assert (FromBranch pr ∈ FromBranch <$> out) as Hin
      by (by apply list_elem_of_fmap_2).
    rewrite Hheads in Hin.
    apply list_elem_of_fmap in Hin as (node & -> & Hnode).
    apply list_elem_of_filter in Hnode as [Hst _].
    by apply inStack_decodes in Hst as [_ ?].
  - intros node Hno. destruct (inStack resp branchname node) eqn:E; [|done].
    apply inStack_decodes in E as (_ & matches & Hm & Hm1).
    destruct Hno as [Hno|(m' & Hm' & Hne)]; congruence.
Qed.


End ClientClaims.

(** ** The client claims on a concrete remote *)

(** The snapshot of [Remote]: the three pull requests of [feature], in
    stack order; the other two nodes are left out. *)
Example GetInfo_example :
  ∃ w', GetInfo github.Ready Remote.c Remote.gitcmd Remote.empty
        = Some ({| UserName := "u"; RepositoryID := "R_1";
                   LocalBranch := "feature"; PullRequests := [1; 2; 0] |}, w') ∧
        (ID <$> heap w') = ["PR_3"; "PR_1"; "PR_2"] ∧
        (ChecksPass ∘ MergeStatus <$> heap w')
        = [CheckStatusFail; CheckStatusPass; CheckStatusFail] ∧
        (Stacked ∘ MergeStatus <$> heap w') = [false; true; false].
Proof. eexists. vm_compute. repeat split. Qed.

Lemma Remote_commits node :
  node ∈ Remote.nodes → inStack Remote.resp "feature" node = true →
  ∃ commit rest, genclient.node.Commits node = Some (commit :: rest).
Proof.
  intros Hin _. unfold Remote.nodes in Hin.
  repeat (apply elem_of_cons in Hin as [->|Hin]; [eexists _, _; reflexivity|]).
  by apply elem_of_nil in Hin.
Defined.

Lemma GetInfo_checks_default_fail_witness :
  ∃ info w',
    GetInfo github.Ready Remote.c Remote.gitcmd Remote.empty = Some (info, w') ∧
    ∀ node commit rest,
      node ∈ Remote.nodes → inStack Remote.resp "feature" node = true →
      genclient.node.Commits node = Some (commit :: rest) →
      rollupUnusable commit →
      ∃ p pr,
        p ∈ PullRequests info ∧ heap w' !! p = Some pr ∧
        ID pr = genclient.node.Id node ∧
        FromBranch pr = genclient.node.HeadRefName node ∧
        ChecksPass (MergeStatus pr) = CheckStatusFail.
Proof.
  apply (GetInfo_checks_default_fail github.Ready Remote.c Remote.gitcmd
           Remote.empty Remote.resp "feature" Remote.nodes).
  - reflexivity.
  - vm_compute; reflexivity.
  - reflexivity.
  - exact Remote_commits.
Defined.

Lemma GetInfo_stack_membership_witness :
  ∃ info w' out,
    GetInfo github.Ready Remote.c Remote.gitcmd Remote.empty = Some (info, w') ∧
    LocalBranch info = "feature" ∧
    entries (heap w') (PullRequests info) = Some out ∧
    (∀ pr, pr ∈ out →
       ∃ matches,
         FindStringSubmatch BranchNameRegex (FromBranch pr) = Some matches ∧
         matches !! 1 = Some "feature") ∧
    FromBranch <$> out
    ≡ₚ genclient.node.HeadRefName
         <$> filter (λ node, inStack Remote.resp "feature" node = true)
               Remote.nodes ∧
    (∀ node,
       FindStringSubmatch BranchNameRegex (genclient.node.HeadRefName node) = None
       ∨ (∃ matches,
            FindStringSubmatch BranchNameRegex (genclient.node.HeadRefName node)
            = Some matches ∧ matches !! 1 ≠ Some "feature") →
       inStack Remote.resp "feature" node = false).
Proof.
  apply (GetInfo_stack_membership github.Ready Remote.c Remote.gitcmd
           Remote.empty Remote.resp "feature" Remote.nodes).
  - reflexivity.
  - vm_compute; reflexivity.
  - reflexivity.
  - exact Remote_commits.
Defined.


(** Three local commits A, B, C with no pull request yet and trunk [main]:
    the pull request of A is based on [main], that of B on the head branch
    of A, that of C on the head branch of B. *)
Example create_three_commits :
  let info := {| UserName := "u"; RepositoryID := "R_1";
                 LocalBranch := "feature"; PullRequests := [] |} in
  let create := CreatePullRequest GoString.TrimSpaceASCII Remote.c Remote.gitcmd info in
  ∃ w',
    (a ← create (Commit Examples.A) None;
     b ← create (Commit Examples.B) (Some (Commit Examples.A));
     c ← create (Commit Examples.C) (Some (Commit Examples.B));
     mret [a; b; c]) Remote.empty = Some ([0; 1; 2], w') ∧
    (ToBranch <$> heap w')
    = ["main"; "pr/u/feature/0000000a"; "pr/u/feature/0000000b"] ∧
    (FromBranch <$> heap w')
    = ["pr/u/feature/0000000a"; "pr/u/feature/0000000b"; "pr/u/feature/0000000c"].
Proof. eexists. vm_compute. repeat split. Qed.

(** * More on the ordering engine *)

Section OrderingMore.

Context {Config : Type}.
Variable Ready : Config → PullRequest → bool.

Implicit Types (h : list PullRequest) (prs sorted : list nat).
Implicit Types (vs out : list PullRequest) (t : string) (config : Config).

Lemma scan_ge h prs t j n k :
  scan h prs t j n = Some (Some k) → j ≤ k.
Proof.
  revert j. induction n as [|n IH]; intros j; simpl; [done|].
  destruct (prs !! j) as [p|]; simpl; [|done].
  destruct (h !! p) as [v|]; simpl; [|done].
  destruct (decide (ToBranch v = t)).
  - intros [= <-]. lia.
  - intros H%IH. lia.
Qed.

(** The outer loop leaves the positions before [i] alone. *)
Lemma sortLoop_take h prs t i n sorted t' :
  sortLoop h prs t i n = Some (sorted, t') → take i sorted = take i prs.
Proof.
  revert prs t i. induction n as [|n IH]; intros prs t i; simpl.
  - by intros [= -> ->].
  - destruct (scan h prs t i (length prs - i)) as [[k|]|] eqn:Hscan; simpl;
      [| |done].
    + destruct (prs !! k) as [p|] eqn:Hp; simpl; [|done].
      destruct (h !! p) as [v|]; simpl; [|done].
      unfold swap. rewrite Hp.
      destruct (prs !! i) as [q|] eqn:Hq; simpl; [|done].
      intros Hs%IH. apply scan_ge in Hscan.
      apply (f_equal (take i)) in Hs. rewrite !take_take in Hs.
      replace (i `min` S i) with i in Hs by lia.
      rewrite Hs. apply swapped_take. lia.
    + intros Hs%IH. apply (f_equal (take i)) in Hs.
      rewrite !take_take in Hs. by replace (i `min` S i) with i in Hs by lia.
Qed.

(** Whatever the input, the loop lines up a chain from position [i] on and
    stops where no entry merges into the target it is left with. *)
Lemma sortLoop_greedy h n : ∀ i prs t,
  Forall (λ p, is_Some (h !! p)) prs →
  i + n = length prs →
  ∃ sorted t' vs m,
    sortLoop h prs t i n = Some (sorted, t') ∧
    entries h sorted = Some vs ∧
    linked t (take m (drop i vs)) ∧
    t' = lastTarget t (take m (drop i vs)) ∧
    ∀ v, v ∈ drop (i + m) vs → ToBranch v ≠ t'.
Proof.
  induction n as [|n IH]; intros i prs t Hval Hlen.
  - destruct (mapM_is_Some_2 (λ p : nat, h !! p) prs Hval) as [vs Hvs].
    exists prs, t, vs, 0. simpl. repeat split; try done.
    intros v Hv. apply mapM_Some in Hvs.
    rewrite Nat.add_0_r, drop_ge in Hv.
    + by apply elem_of_nil in Hv.
    + rewrite <-(Forall2_length _ _ _ Hvs). lia.
  - destruct (scan_spec h prs t i (length prs - i) Hval)
      as [(k & p & v & Hscan & Hk & Hp & Hv & Ht & _)|[Hscan Hnone]]; [lia|..].
    + destruct (lookup_lt_is_Some_2 prs i) as [q Hq]; [lia|].
      set (prs' := <[k := q]> (<[i := p]> prs)).
      destruct (IH (S i) prs' (FromBranch v)) as (sorted & t' & vs & m & Hs & Hvs & Hl & Ht' & Hrest).
      { unfold prs'. apply Forall_insert; [apply Forall_insert; [done|]|].
        - by eapply (proj1 (Forall_lookup _ _) Hval).
        - by eapply (proj1 (Forall_lookup _ _) Hval). }
      { unfold prs'. rewrite !length_insert. lia. }
      exists sorted, t', vs, (S m).
      assert (sorted !! i = Some p) as Hsi.
      { rewrite <-(lookup_take_lt sorted (S i) i) by lia.
        rewrite (sortLoop_take _ _ _ _ _ _ _ Hs), lookup_take_lt by lia.
        by apply swapped_lookup. }
      assert (vs !! i = Some v) as Hvi.
      { apply mapM_Some in Hvs.
        destruct (Forall2_lookup_l _ _ _ _ _ Hvs Hsi) as (v' & ? & ?).
        congruence. }
      split.
      { simpl. rewrite Hscan; simpl. rewrite Hp; simpl. rewrite Hv; simpl.
        by rewrite (swap_Some _ _ _ _ _ Hq Hp). }
      split; [done|].
      rewrite (drop_S _ _ _ Hvi). simpl.
      split; [done|]. split; [done|].
      by replace (i + S m) with (S i + m) by lia.
    + destruct (mapM_is_Some_2 (λ p : nat, h !! p) prs Hval) as [vs Hvs].
      exists prs, t, vs, 0. simpl. rewrite Hscan; simpl.
      split.
      { apply sortLoop_no_match; [done|].
        intros k p v Hk Hp Hv. eapply Hnone; [|done..].
        apply lookup_lt_Some in Hp. lia. }
      repeat split; try done.
      intros v Hin. rewrite Nat.add_0_r in Hin.
      apply list_elem_of_lookup_1 in Hin as [d Hd]. rewrite lookup_drop in Hd.
      apply mapM_Some in Hvs.
      destruct (Forall2_lookup_r _ _ _ _ _ Hvs Hd) as (p & Hp & Hpv).
      eapply (Hnone (i + d)); [|done..].
      apply lookup_lt_Some in Hp. lia.
Qed.

Lemma lastTarget_flagged t vs out :
  Forall2 flagged vs out → lastTarget t out = lastTarget t vs.
Proof.
  intros HF. revert t. induction HF as [|a b vs out Hab _ IH]; intros t; [done|].
  simpl. apply flagged_branches in Hab as [_ ->]. apply IH.
Qed.

(** X1. On every input with valid pointers, the output of
    [sortPullRequests] starts with a chain on the trunk that cannot be
    extended: for some [m], the first [m] entries are in chain order
    and no entry after them merges into the branch the chain ends with
    (the trunk itself when [m = 0]). *)
Theorem sortPullRequests_maximal_chain h prs config trunk :
  Forall (λ p, is_Some (h !! p)) prs →
  ∃ sorted h' out m,
    sortPullRequests Ready h prs config trunk = Some (sorted, h') ∧
    entries h' sorted = Some out ∧
    chained trunk (take m out) ∧
    ∀ pr, pr ∈ drop m out → ToBranch pr ≠ lastTarget trunk (take m out).
Proof.
  intros Hval.
  destruct (sortLoop_greedy h (length prs) 0 prs trunk Hval)
    as (sorted & t' & vs & m & Hs & Hvs & Hl & Ht' & Hrest); [done|].
  rewrite drop_0 in *. simpl in Hrest.
  destruct (markStacked_total Ready config h sorted) as [h' Hm].
  { by eapply entries_valid. }
  destruct (markStacked_flagged _ _ _ _ _ Hm) as [_ Hfl].
  destruct (entries_flagged _ _ _ _ Hvs Hfl) as (out & Hout & Hflag).
  exists sorted, h', out, m. split; [|split; [done|split]].
  - unfold sortPullRequests. rewrite Hs; simpl. by rewrite Hm.
  - apply linked_chained. eapply linked_flagged; [|done].
    by apply Forall2_take.
  - intros pr Hin.
    rewrite (lastTarget_flagged trunk (take m vs) (take m out))
      by (by apply Forall2_take).
    rewrite <-Ht'.
    apply list_elem_of_lookup_1 in Hin as [d Hd].
    destruct (Forall2_lookup_r _ _ _ _ _ (Forall2_drop _ _ _ m Hflag) Hd)
      as (v & Hv & Hf).
    apply flagged_branches in Hf as [-> _].
    apply Hrest. by eapply list_elem_of_lookup_2.
Qed.

(** The loop run again on its own output changes nothing. *)
Lemma sortLoop_idempotent h n : ∀ i prs t sorted t',
  Forall (λ p, is_Some (h !! p)) prs →
  sortLoop h prs t i n = Some (sorted, t') →
  sortLoop h sorted t i n = Some (sorted, t').
Proof.
  induction n as [|n IH]; intros i prs t sorted t' Hval; simpl.
  - by intros [= -> ->].
  - destruct (decide (i ≤ length prs)) as [Hi|Hi].
    2:{ replace (length prs - i) with 0 by lia. simpl. intros Hs.
        pose proof (sortLoop_Permutation _ _ _ _ _ _ _ Hs) as Hperm.
        replace (length sorted - i) with 0
          by (rewrite (Permutation_length Hperm); lia).
        simpl. eapply IH; [|done]. done. }
    destruct (scan_spec h prs t i (length prs - i) Hval)
      as [(k & p & v & Hscan & Hk & Hp & Hv & Ht & _)|[Hscan Hnone]]; [lia|..].
    + rewrite Hscan; simpl. rewrite Hp; simpl. rewrite Hv; simpl.
      destruct (lookup_lt_is_Some_2 prs i) as [q Hq]; [lia|].
      rewrite (swap_Some _ _ _ _ _ Hq Hp); simpl. intros Hs.
      assert (sorted !! i = Some p) as Hsi.
      { rewrite <-(lookup_take_lt sorted (S i) i) by lia.
        rewrite (sortLoop_take _ _ _ _ _ _ _ Hs), lookup_take_lt by lia.
        by apply swapped_lookup. }
      assert (scan h sorted t i (length sorted - i) = Some (Some i)) as ->.
      { apply lookup_lt_Some in Hsi as Hlt.
        destruct (length sorted - i) as [|d] eqn:E; [lia|]. simpl.
        rewrite Hsi; simpl. rewrite Hv; simpl. by rewrite decide_True. }
      simpl. rewrite Hsi; simpl. rewrite Hv; simpl.
      rewrite (swap_Some _ _ _ _ _ Hsi Hsi); simpl.
      rewrite list_insert_insert_eq, list_insert_id by done.
      eapply IH; [|done].
      apply Forall_insert; [apply Forall_insert; [done|]|].
      * by eapply (proj1 (Forall_lookup _ _) Hval).
      * by eapply (proj1 (Forall_lookup _ _) Hval).
    + rewrite Hscan; simpl.
      assert (∀ k p v, i ≤ k → prs !! k = Some p → h !! p = Some v →
                       ToBranch v ≠ t) as Hno.
      { intros k p v Hk Hp Hv. eapply Hnone; [|done..].
        apply lookup_lt_Some in Hp. lia. }
      rewrite (sortLoop_no_match h prs t (S i) n Hval).
      2:{ intros k p v Hk. apply Hno. lia. }
      intros [= <- <-].
      apply (sortLoop_no_match h prs t i (S n) Hval Hno).
Qed.

(** The scan reads the branches of the objects only. *)
Lemma scan_flagged h h' prs t j n :
  (∀ p v, h !! p = Some v → ∃ v', h' !! p = Some v' ∧ flagged v v') →
  Forall (λ p, is_Some (h !! p)) prs →
  scan h' prs t j n = scan h prs t j n.
Proof.
  intros Hfl Hval. revert j. induction n as [|n IH]; intros j; simpl; [done|].
  destruct (prs !! j) as [p|] eqn:Hp; simpl; [|done].
  destruct (proj1 (Forall_lookup _ _) Hval j p Hp) as [v Hv].
  destruct (Hfl p v Hv) as (v' & Hv' & Hf). rewrite Hv, Hv'; simpl.
  apply flagged_branches in Hf as [-> _].
  destruct (decide (ToBranch v = t)); [done|]. apply IH.
Qed.

Lemma sortLoop_flagged h h' n : ∀ i prs t,
  (∀ p v, h !! p = Some v → ∃ v', h' !! p = Some v' ∧ flagged v v') →
  Forall (λ p, is_Some (h !! p)) prs →
  sortLoop h' prs t i n = sortLoop h prs t i n.
Proof.
  induction n as [|n IH]; intros i prs t Hfl Hval; simpl; [done|].
  rewrite (scan_flagged h h') by done.
  destruct (scan h prs t i (length prs - i)) as [[k|]|]; simpl; [| |done].
  - destruct (prs !! k) as [p|] eqn:Hp; simpl; [|done].
    destruct (proj1 (Forall_lookup _ _) Hval k p Hp) as [v Hv].
    destruct (Hfl p v Hv) as (v' & Hv' & Hf). rewrite Hv, Hv'; simpl.
    apply flagged_branches in Hf as [_ ->].
    unfold swap. rewrite Hp.
    destruct (prs !! i) as [q|] eqn:Hq; simpl; [|done].
    apply IH; [done|].
    apply Forall_insert; [apply Forall_insert; [done|]|].
    + by eapply (proj1 (Forall_lookup _ _) Hval).
    + by eapply (proj1 (Forall_lookup _ _) Hval).
  - by apply IH.
Qed.

(** X2. Sorting is idempotent on the order: on every input with valid
    pointers [sortPullRequests] returns, and applied to its own output
    with the same trunk it returns the slice in the same order. *)
Theorem sortPullRequests_idempotent h prs config trunk :
  Forall (λ p, is_Some (h !! p)) prs →
  ∃ sorted h' h'',
    sortPullRequests Ready h prs config trunk = Some (sorted, h') ∧
    sortPullRequests Ready h' sorted config trunk = Some (sorted, h'').
Proof.
  intros Hval.
  destruct (sortPullRequests_returns Ready h prs config trunk Hval)
    as (sorted & t' & h' & Hs & Hm & Hsort & Hperm).
  destruct (markStacked_flagged _ _ _ _ _ Hm) as [Hlen Hfl].
  assert (Forall (λ p, is_Some (h !! p)) sorted) as Hval' by (by rewrite Hperm).
  assert (Forall (λ p, is_Some (h' !! p)) sorted) as Hval''.
  { eapply Forall_impl; [done|]. intros q; simpl.
    by rewrite !lookup_lt_is_Some, Hlen. }
  destruct (markStacked_total Ready config h' sorted Hval'') as [h'' Hm'].
  exists sorted, h', h''. split; [done|].
  unfold sortPullRequests.
  rewrite (sortLoop_flagged h h') by done.
  rewrite (Permutation_length Hperm).
  rewrite (sortLoop_idempotent h _ _ _ _ _ _ Hval Hs). simpl.
  by rewrite Hm'.
Qed.





End OrderingMore.

(** * More on the branch identity codec *)

Section CodecMore.

Import regexp.

Implicit Types (s t l : string) (cls : ascii → bool).

Lemma lit_Some l s s' : lit l s = Some s' → s = l +:+ s'.
Proof.
  revert s. induction l as [|a l IH]; intros s; simpl.
  - by intros [= ->].
  - destruct s as [|c s]; [done|]. destruct (decide (c = a)) as [->|]; [|done].
    intros H%IH. by rewrite append_String, <-H.
Qed.

Lemma rep_Some cls n s s' :
  rep cls n s = Some s' →
  ∃ r, s = r +:+ s' ∧ String.length r = n ∧ GoString.all cls r = true.
Proof.
  revert s. induction n as [|n IH]; intros s; simpl.
  - intros [= ->]. by exists "".
  - destruct s as [|c s]; [done|]. destruct (cls c) eqn:Hc; [|done].
    intros (r & -> & <- & Hr)%IH. exists (String c r).
    rewrite append_String. simpl. by rewrite Hc, Hr.
Qed.

Lemma plus_Some_run {R} cls s (k : string → option R) x :
  plus cls s k = Some x →
  ∃ r s', s = r +:+ s' ∧ r ≠ "" ∧ GoString.all cls r = true ∧ k s' = Some x.
Proof.
  induction s as [|c s IH]; simpl; [done|].
  destruct (cls c) eqn:Hc; [|done].
  destruct (plus cls s k) as [y|] eqn:E.
  - intros [= ->]. destruct (IH eq_refl) as (r & s' & -> & _ & Hr & Hk).
    exists (String c r), s'. rewrite append_String. simpl.
    by rewrite Hc, Hr.
  - intros Hk. exists (String c ""), s. simpl. by rewrite Hc.
Qed.

Lemma append_inj_r s s' t : s +:+ t = s' +:+ t → s = s'.
Proof.
  intros H.
  assert (String.length s = String.length s') as Hlen.
  { apply (f_equal String.length) in H. rewrite !length_append in H. lia. }
  rewrite <-(take_append s t), <-(take_append s' t), H. by rewrite Hlen.
Qed.

(** A match of the pattern at the start of a text takes the whole text,
    and the text is an encoded name. *)
Lemma matchHere_inv s m :
  matchHere BranchNameRegex s = Some m →
  ∃ u b f,
    s = "pr/" +:+ u +:+ "/" +:+ b +:+ "/" +:+ f ∧ m = [s; b; f] ∧
    u ≠ "" ∧ GoString.all userClass u = true ∧
    b ≠ "" ∧ GoString.all branchClass b = true ∧
    String.length f = 8 ∧ GoString.all hexClass f = true.
Proof.
  unfold matchHere.
  set (k0 := λ (s' : string) (caps : list string),
               Some (<[0 := consumed s s']> caps)).
  change (exec BranchNameRegex s _ k0) with
    (match lit "pr/" s with
     | Some s1 =>
         plus userClass s1 (λ s2,
           match lit "/" s2 with
           | Some s3 =>
               plus branchClass s3 (λ s4,
                 match lit "/" s4 with
                 | Some s5 =>
                     match rep hexClass 8 s5 with
                     | Some s6 =>
                         match s6 with
                         | EmptyString =>
                             k0 s6 (<[2 := consumed s5 s6]>
                                      (<[1 := consumed s3 s4]> [""; ""; ""]))
                         | String _ _ => None
                         end
                     | None => None
                     end
                 | None => None
                 end)
           | None => None
           end)
     | None => None
     end).
  destruct (lit "pr/" s) as [s1|] eqn:H1; [|done].
  apply lit_Some in H1.
  intros (u & s2 & -> & Hu & Hua & H2)%plus_Some_run.
  destruct (lit "/" s2) as [s3|] eqn:H3; [|done]. apply lit_Some in H3.
  apply plus_Some_run in H2 as (b & s4 & -> & Hb & Hba & H4).
  destruct (lit "/" s4) as [s5|] eqn:H5; [|done]. apply lit_Some in H5.
  destruct (rep hexClass 8 s5) as [s6|] eqn:H6; [|done].
  apply rep_Some in H6 as (f & -> & Hf & Hfa).
  destruct s6; [|done]. unfold k0 in H4. simplify_eq.
  rewrite append_nil_r in *.
  exists u, b, f. rewrite consumed_all, consumed_append, consumed_all.
  done.
Qed.

Lemma FindStringSubmatch_inv r s m :
  FindStringSubmatch r s = Some m →
  ∃ pre w, s = pre +:+ w ∧ matchHere r w = Some m.
Proof.
  induction s as [|c s IH]; simpl.
  - destruct (matchHere r "") eqn:E; [|done]. intros [= <-]. by exists "", "".
  - destruct (matchHere r (String c s)) eqn:E.
    + intros [= <-]. by exists "", (String c s).
    + intros (pre & w & -> & Hw)%IH. by exists (String c pre), w.
Qed.

End CodecMore.

(** Whatever text the pattern matches, the match is an encoded name at
    the end of the text. *)
Lemma FindStringSubmatch_encoded (s : string) (matches : list string) :
  FindStringSubmatch BranchNameRegex s = Some matches →
  ∃ pre u b f,
    s = pre +:+ "pr/" +:+ u +:+ "/" +:+ b +:+ "/" +:+ f ∧
    matches = ["pr/" +:+ u +:+ "/" +:+ b +:+ "/" +:+ f; b; f] ∧
    u ≠ "" ∧ GoString.all userClass u = true ∧
    b ≠ "" ∧ GoString.all branchClass b = true ∧
    String.length f = 8 ∧ GoString.all hexClass f = true.
Proof.
  intros (pre & w & -> & Hw)%FindStringSubmatch_inv.
  apply matchHere_inv in Hw as (u & b & f & -> & -> & ?).
  by exists pre, u, b, f.
Qed.

(** X4. Whatever text [BranchNameRegex] matches, the match is an encoded
    name at the end of the text: the text ends with
    ["pr/" + u + "/" + b + "/" + f] for a non-empty [u] of user
    characters, a non-empty [b] of branch characters and an [f] of exactly
    eight lowercase hexadecimal characters, and the submatches are the
    encoded name, [b] and [f]. *)
Theorem BranchNameRegex_match_is_encoded (s : string) (matches : list string) :
  FindStringSubmatch BranchNameRegex s = Some matches →
  ∃ pre u b f,
    s = pre +:+ "pr/" +:+ u +:+ "/" +:+ b +:+ "/" +:+ f ∧
    matches = ["pr/" +:+ u +:+ "/" +:+ b +:+ "/" +:+ f; b; f] ∧
    u ≠ "" ∧ GoString.all userClass u = true ∧
    b ≠ "" ∧ GoString.all branchClass b = true ∧
    String.length f = 8 ∧ GoString.all hexClass f = true.
Proof. apply FindStringSubmatch_encoded. Qed.

(** X5. The encoding is injective on valid identities: two snapshots and
    commits with non-empty user and branch components of allowed
    characters and eight-digit hexadecimal fingerprints get the same
    branch name only if user, local branch and fingerprint are the
    same. *)
Theorem branchNameFromCommit_inj (info info' : GitHubInfo)
    (commit commit' : git.Commit) :
  UserName info ≠ "" → GoString.all userClass (UserName info) = true →
  LocalBranch info ≠ "" → GoString.all branchClass (LocalBranch info) = true →
  String.length (git.CommitID commit) = 8 →
  GoString.all hexClass (git.CommitID commit) = true →
  UserName info' ≠ "" → GoString.all userClass (UserName info') = true →
  LocalBranch info' ≠ "" → GoString.all branchClass (LocalBranch info') = true →
  String.length (git.CommitID commit') = 8 →
  GoString.all hexClass (git.CommitID commit') = true →
  branchNameFromCommit info commit = branchNameFromCommit info' commit' →
  UserName info = UserName info' ∧ LocalBranch info = LocalBranch info' ∧
  git.CommitID commit = git.CommitID commit'.
Proof.
  intros Hu Hua Hb Hba Hf Hfa Hu' Hua' Hb' Hba' Hf' Hfa' Heq.
  pose proof (matchHere_branch_name _ _ _ Hu Hua Hb Hba Hf Hfa) as H1.
  pose proof (matchHere_branch_name _ _ _ Hu' Hua' Hb' Hba' Hf' Hfa') as H2.
  unfold branchNameFromCommit in Heq. rewrite Heq, H2 in H1.
  assert (LocalBranch info' = LocalBranch info
          ∧ git.CommitID commit' = git.CommitID commit) as [Hbb Hff]
    by (split; congruence).
  rewrite Hbb, Hff in Heq.
  split; [|done].
  apply (inj (String.app "pr/")) in Heq. by apply append_inj_r in Heq.
Qed.

(** * Local and remote branch names *)

Section BranchMore.

Implicit Types (s t cur line : string) (sep : ascii) (lines : list string).

Lemma rev_app_rev_app a b c :
  String.rev_app (String.rev_app a b) c = String.rev_app b (a +:+ c).
Proof.
  revert b c. induction a as [|x a IH]; intros b c; [done|].
  simpl. by rewrite IH.
Qed.

Lemma rev_rev_app a : String.rev (String.rev_app a "") = a.
Proof. unfold String.rev. by rewrite rev_app_rev_app, append_nil_r. Qed.

Lemma all_rev_app P a b :
  GoString.all P (String.rev_app a b) = GoString.all P a && GoString.all P b.
Proof.
  revert b. induction a as [|x a IH]; intros b; [done|].
  simpl. rewrite IH. simpl. by destruct (P x), (GoString.all P a).
Qed.

Lemma all_drop P n s :
  GoString.all P s = true → GoString.all P (GoString.drop n s) = true.
Proof.
  revert s. induction n as [|n IH]; intros [|c s]; simpl; try done.
  intros [_ ?]%andb_prop. by apply IH.
Qed.

(** *** [strings.Split] *)

Lemma Split_go_line sep cur line s :
  free sep line = true →
  GoString.Split_go sep cur (line +:+ s)
  = GoString.Split_go sep (String.rev_app line cur) s.
Proof.
  unfold free. revert cur. induction line as [|c line IH]; intros cur; [done|].
  rewrite append_String. simpl.
  intros [Hc Hl]%andb_prop. apply negb_true_iff in Hc. rewrite Hc.
  by apply IH.
Qed.

Lemma Split_go_joinWith sep line lines :
  Forall (λ l, free sep l = true) (line :: lines) →
  GoString.Split_go sep "" (joinWith sep (line :: lines)) = line :: lines.
Proof.
  revert line. induction lines as [|l2 lines IH]; intros line Hfree.
  - apply Forall_cons in Hfree as [Hl _]. simpl.
    rewrite <-(append_nil_r line) at 1. rewrite Split_go_line by done.
    simpl. by rewrite rev_rev_app.
  - apply Forall_cons in Hfree as [Hl Hrest].
    change (joinWith sep (line :: l2 :: lines))
      with (line +:+ String sep (joinWith sep (l2 :: lines))).
    rewrite Split_go_line by done. cbn [GoString.Split_go].
    rewrite bool_decide_eq_true_2 by done.
    by rewrite rev_rev_app, IH.
Qed.

Lemma Split_go_free sep cur s line :
  free sep cur = true → line ∈ GoString.Split_go sep cur s →
  free sep line = true.
Proof.
  unfold free. revert cur. induction s as [|c s IH]; intros cur Hcur; simpl.
  - intros ->%list_elem_of_singleton. unfold String.rev.
    by rewrite all_rev_app, Hcur.
  - destruct (bool_decide (c = sep)) eqn:Hc.
    + intros [->|Hin]%elem_of_cons.
      * unfold String.rev. by rewrite all_rev_app, Hcur.
      * by apply (IH "").
    + apply IH. simpl. by rewrite Hc, Hcur.
Qed.

(** *** The loop over the lines *)

Lemma getLocalBranchName_loop_current pre b post :
  Forall (λ l, GoString.HasPrefix l "* " = false) pre →
  getLocalBranchName_loop (pre ++ ("* " +:+ b) :: post) = Some b.
Proof.
  induction 1 as [|l pre Hl _ IH].
  - rewrite app_nil_l, !append_String, append_nil_l. simpl.
    by destruct b.
  - simpl. by rewrite Hl.
Qed.

Lemma getLocalBranchName_loop_none lines :
  Forall (λ l, GoString.HasPrefix l "* " = false) lines →
  getLocalBranchName_loop lines = None.
Proof. induction 1 as [|l lines Hl _ IH]; simpl; [done|]. by rewrite Hl. Qed.

Lemma getLocalBranchName_loop_elem lines b :
  getLocalBranchName_loop lines = Some b →
  ∃ line, line ∈ lines ∧ GoString.HasPrefix line "* " = true ∧
          b = GoString.drop 2 line.
Proof.
  induction lines as [|l lines IH]; simpl; [done|].
  destruct (GoString.HasPrefix l "* ") eqn:Hl.
  - intros [= <-]. exists l. split; [by left|done].
  - intros (line & ? & ?)%IH. exists line. split; [by right|done].
Qed.

End BranchMore.

(** X6. When git prints the branches one per line, [getLocalBranchName]
    returns what follows ["* "] on the first line that starts with it:
    the name of the checked-out branch. *)
Theorem getLocalBranchName_current (gitcmd : git.GitInterface)
    (pre post : list string) (b : string) :
  git.Git gitcmd "branch --no-color"
  = Some (joinWith "010" (pre ++ ("* " +:+ b) :: post)) →
  Forall (λ l, free "010" l = true) (pre ++ ("* " +:+ b) :: post) →
  Forall (λ l, GoString.HasPrefix l "* " = false) pre →
  getLocalBranchName gitcmd = Some b.
Proof.
  intros Hgit Hfree Hpre. unfold getLocalBranchName. rewrite Hgit. simpl.
  unfold GoString.Split.
  destruct (pre ++ ("* " +:+ b) :: post) as [|l ls] eqn:E.
  { by destruct pre. }
  rewrite Split_go_joinWith by done. rewrite <-E.
  by apply getLocalBranchName_loop_current.
Qed.

(** X7. [getLocalBranchName] aborts when the git command fails and when
    no line of its output starts with ["* "]; [GetRemoteBranchName] then
    aborts as well, whatever the configuration. *)
Theorem getLocalBranchName_no_current (gitcmd : git.GitInterface)
    (repoConfig : config.RepoConfig) :
  git.Git gitcmd "branch --no-color" = None
  ∨ (∃ lines,
       git.Git gitcmd "branch --no-color" = Some (joinWith "010" lines) ∧
       Forall (λ l, free "010" l = true) lines ∧
       Forall (λ l, GoString.HasPrefix l "* " = false) lines) →
  getLocalBranchName gitcmd = None ∧
  GetRemoteBranchName gitcmd repoConfig = None.
Proof.
  intros H.
  assert (getLocalBranchName gitcmd = None) as Hnone.
  { unfold getLocalBranchName.
    destruct H as [->|(lines & -> & Hfree & Hno)]; [done|]. simpl.
    unfold GoString.Split. destruct lines as [|l ls]; [done|].
    rewrite Split_go_joinWith by done.
    by apply getLocalBranchName_loop_none. }
  split; [done|]. unfold GetRemoteBranchName. by rewrite Hnone.
Qed.

(** X8. The name [getLocalBranchName] returns is on one line: it contains
    no line feed, whatever git printed. *)
Theorem getLocalBranchName_one_line (gitcmd : git.GitInterface) (b : string) :
  getLocalBranchName gitcmd = Some b → free "010" b = true.
Proof.
  unfold getLocalBranchName.
  destruct (git.Git gitcmd "branch --no-color") as [output|]; [|done]. simpl.
  intros (line & Hin & _ & ->)%getLocalBranchName_loop_elem.
  apply all_drop. by eapply (Split_go_free "010" "" output line).
Qed.

(** X9. [GetRemoteBranchName] returns the checked-out branch when it is one
    of the configured remote branches, and the configured default branch
    otherwise. *)
Theorem GetRemoteBranchName_target (gitcmd : git.GitInterface)
    (repoConfig : config.RepoConfig) (b : string) :
  getLocalBranchName gitcmd = Some b →
  ∃ target,
    GetRemoteBranchName gitcmd repoConfig = Some target ∧
    ((b ∈ config.RemoteBranches repoConfig ∧ target = b)
     ∨ ((b ∉ config.RemoteBranches repoConfig)
        ∧ target = config.GitHubBranch repoConfig)).
Proof.
  intros Hb. rewrite (GetRemoteBranchName_Some _ _ _ Hb).
  eexists. split; [done|].
  destruct (GetRemoteBranchName_loop_cases b
              (config.RemoteBranches repoConfig)
              (config.GitHubBranch repoConfig)) as [[? ->]|[? ->]]; auto.
Qed.

(** * More on the client *)

Section SnapshotMore.

Variable Ready : config.Config → PullRequest → bool.

Implicit Types (h : list PullRequest) (vs out : list PullRequest).
Implicit Types (w : World) (c : client) (resp : genclient.response.t).
Implicit Types (nodes : list genclient.node.t) (branchname : string).

(** [GetInfo] in terms of the objects it allocates and of the ordering. *)
Lemma GetInfo_eq c gitcmd w resp branchname nodes :
  genclient.PullRequests (api c)
    (config.GitHubRepoOwner (config.Repo (config c)))
    (config.GitHubRepoName (config.Repo (config c))) = Some resp →
  getLocalBranchName gitcmd = Some branchname →
  genclient.response.Nodes resp = Some nodes →
  GetInfo Ready c gitcmd w =
  match accepted resp branchname nodes with
  | Some vs =>
      match sortPullRequests Ready (heap w ++ vs)
              (seq (length (heap w)) (length vs)) (config c)
              (GetRemoteBranchName_loop branchname
                 (config.RemoteBranches (config.Repo (config c)))
                 (config.GitHubBranch (config.Repo (config c)))) with
      | Some (sorted, h') =>
          Some ({| UserName := genclient.response.Login resp;
                   RepositoryID := genclient.response.RepositoryId resp;
                   LocalBranch := branchname;
                   PullRequests := sorted |},
                {| heap := h';
                   calls := calls w ++
                     [genclient.CallPullRequests
                        (config.GitHubRepoOwner (config.Repo (config c)))
                        (config.GitHubRepoName (config.Repo (config c)))] |})
      | None => None
      end
  | None => None
  end.
Proof.
  intros Hresp Hbranch Hnodes.
  unfold GetInfo, mbind, M_bind, send, lift, getHeap, putHeap, mret, M_ret.
  rewrite Hresp, Hbranch, Hnodes, GetInfo_loop_eq.
  destruct (accepted resp branchname nodes) as [vs|]; [|done].
  rewrite (GetRemoteBranchName_Some _ _ _ Hbranch). simpl.
  by destruct (sortPullRequests _ _ _ _ _) as [[sorted h']|].
Qed.

Lemma GetInfo_node_fields resp branchname node pr :
  GetInfo_node resp branchname node = Some (Some pr) →
  ∃ matches,
    FindStringSubmatch BranchNameRegex (genclient.node.HeadRefName node)
    = Some matches ∧
    matches !! 1 = Some branchname ∧
    matches !! 2 = Some (git.CommitID (Commit pr)) ∧
    FromBranch pr = genclient.node.HeadRefName node ∧
    ToBranch pr = genclient.node.BaseRefName node.
Proof.
  unfold GetInfo_node.
  destruct (decide (_ ≠ _)); [done|].
  destruct (FindStringSubmatch BranchNameRegex _) as [matches|]; [|done].
  destruct (matches !! 1) as [m1|] eqn:H1; simpl; [|done].
  destruct (decide (m1 = branchname)) as [->|]; [|done].
  destruct (genclient.node.Commits node) as [[|commit rest]|]; simpl; try done.
  destruct (matches !! 2) as [m2|] eqn:H2; simpl; [|done].
  intros [= <-]. by exists matches.
Qed.

Lemma GetInfo_node_no_commit resp branchname node :
  inStack resp branchname node = true →
  genclient.node.Commits node = None ∨ genclient.node.Commits node = Some [] →
  GetInfo_node resp branchname node = None.
Proof.
  intros H Hc. unfold inStack, GetInfo_node in *.
  apply andb_prop in H as [Hrepo H]. apply bool_decide_eq_true in Hrepo.
  rewrite decide_False by (by intros ?).
  destruct (FindStringSubmatch BranchNameRegex _) as [matches|]; [|done].
  apply bool_decide_eq_true in H. rewrite H; simpl.
  rewrite decide_True by done. by destruct Hc as [-> | ->].
Qed.

(** X10. The snapshot keeps the invariant of the stacked flag: when the
    query is answered with a list of nodes, git names the checked-out
    branch and every node of the stack has a commit, [GetInfo] returns,
    and in the stack it returns [Stacked] is true for a contiguous prefix
    only, whatever the nodes are and whichever of them are ready. *)
Theorem GetInfo_stacked_prefix c gitcmd w resp branchname nodes :
  genclient.PullRequests (api c)
    (config.GitHubRepoOwner (config.Repo (config c)))
    (config.GitHubRepoName (config.Repo (config c))) = Some resp →
  getLocalBranchName gitcmd = Some branchname →
  genclient.response.Nodes resp = Some nodes →
  (∀ node, node ∈ nodes → inStack resp branchname node = true →
           ∃ commit rest, genclient.node.Commits node = Some (commit :: rest)) →
  ∃ info w' out,
    GetInfo Ready c gitcmd w = Some (info, w') ∧
    entries (heap w') (PullRequests info) = Some out ∧
    stackedPrefix out.
Proof.
  intros Hresp Hbranch Hnodes Hcommits.
  destruct (GetInfo_snapshot Ready c gitcmd w resp branchname nodes
              Hresp Hbranch Hnodes Hcommits)
    as (info & w' & vs & sortedvs & out & HG & _ & _ & _ & Hout & _ & Hpre).
  by exists info, w', out.
Qed.

(** X11. When the pull requests of the stack form a single connected chain
    ending at the target branch, the stack [GetInfo] returns is these pull
    requests in chain order, whatever the order of the nodes in the
    response: the entries returned are the objects built from the nodes of
    the stack, each once and each unchanged or with its [Stacked] flag
    set, and they are lined up as the chain on the target. *)
Theorem GetInfo_chain_order c gitcmd w resp branchname nodes vs target :
  genclient.PullRequests (api c)
    (config.GitHubRepoOwner (config.Repo (config c)))
    (config.GitHubRepoName (config.Repo (config c))) = Some resp →
  getLocalBranchName gitcmd = Some branchname →
  genclient.response.Nodes resp = Some nodes →
  GetRemoteBranchName gitcmd (config.Repo (config c)) = Some target →
  accepted resp branchname nodes = Some vs →
  singleChain target vs →
  ∃ info w' out chain,
    GetInfo Ready c gitcmd w = Some (info, w') ∧
    entries (heap w') (PullRequests info) = Some out ∧
    chain ≡ₚ vs ∧
    Forall2 flagged chain out ∧
    chained target out.
Proof.
  intros Hresp Hbranch Hnodes Htarget Hvs Hchain.
  rewrite (GetRemoteBranchName_Some _ _ _ Hbranch) in Htarget.
  injection Htarget as Htarget.
  destruct (sortPullRequests_chain Ready (heap w ++ vs)
              (seq (length (heap w)) (length vs)) (config c) target vs)
    as (sorted & h' & out & chain & Hsort & _ & _ & Hperm & Hout & Hfl & Hch);
    [apply entries_fresh|done|].
  rewrite (GetInfo_eq c gitcmd w resp branchname nodes Hresp Hbranch Hnodes).
  rewrite Hvs, Htarget, Hsort. eexists _, _, out, chain. split; [done|].
  by simpl.
Qed.

(** X12. [GetInfo] aborts on a pull request of the stack that comes without
    a commit: the head commit is read at index 0 of its commit list. *)
Theorem GetInfo_no_head_commit c gitcmd w resp branchname nodes node :
  genclient.PullRequests (api c)
    (config.GitHubRepoOwner (config.Repo (config c)))
    (config.GitHubRepoName (config.Repo (config c))) = Some resp →
  getLocalBranchName gitcmd = Some branchname →
  genclient.response.Nodes resp = Some nodes →
  node ∈ nodes → inStack resp branchname node = true →
  genclient.node.Commits node = None ∨ genclient.node.Commits node = Some [] →
  GetInfo Ready c gitcmd w = None.
Proof.
  intros Hresp Hbranch Hnodes Hin Hst Hc.
  rewrite (GetInfo_eq c gitcmd w resp branchname nodes Hresp Hbranch Hnodes).
  unfold accepted.
  rewrite (mapM_None_2 (GetInfo_node resp branchname) nodes); [done|].
  apply Exists_exists. exists node. split; [done|].
  by apply GetInfo_node_no_commit.
Qed.

(** X13. The fingerprint of an entry of the snapshot is the one its head
    branch name carries: the name decodes to the checked-out branch and
    the entry's [CommitID], which is eight lowercase hexadecimal
    characters. *)
Theorem GetInfo_fingerprint c gitcmd w resp branchname nodes :
  genclient.PullRequests (api c)
    (config.GitHubRepoOwner (config.Repo (config c)))
    (config.GitHubRepoName (config.Repo (config c))) = Some resp →
  getLocalBranchName gitcmd = Some branchname →
  genclient.response.Nodes resp = Some nodes →
  (∀ node, node ∈ nodes → inStack resp branchname node = true →
           ∃ commit rest, genclient.node.Commits node = Some (commit :: rest)) →
  ∃ info w' out,
    GetInfo Ready c gitcmd w = Some (info, w') ∧
    entries (heap w') (PullRequests info) = Some out ∧
    ∀ pr, pr ∈ out →
      (∃ whole,
         FindStringSubmatch BranchNameRegex (FromBranch pr)
         = Some [whole; branchname; git.CommitID (Commit pr)]) ∧
      String.length (git.CommitID (Commit pr)) = 8 ∧
      GoString.all hexClass (git.CommitID (Commit pr)) = true.
Proof.
  intros Hresp Hbranch Hnodes Hcommits.
  destruct (GetInfo_snapshot Ready c gitcmd w resp branchname nodes
              Hresp Hbranch Hnodes Hcommits)
    as (info & w' & vs & sortedvs & out & HG & _ & Hvs & Hperm & Hout & Hflag & _).
  exists info, w', out. do 2 (split; [done|]).
  intros pr [i Hi]%list_elem_of_lookup_1.
  destruct (Forall2_lookup_r _ _ _ _ _ Hflag Hi) as (v & Hv & Hf).
  assert (v ∈ vs) as Hin by (rewrite Hperm; by eapply list_elem_of_lookup_2).
  destruct (accepted_unset _ _ _ _ _ Hvs Hin) as (_ & node & _ & Hnode).
  apply GetInfo_node_fields in Hnode as (matches & Hm & H1 & H2 & Hfrom & _).
  assert (FromBranch pr = FromBranch v ∧ Commit pr = Commit v) as [-> ->]
    by (by destruct Hf as [->| ->]).
  rewrite Hfrom, Hm.
  apply FindStringSubmatch_encoded in Hm
    as (pre & u & b & f & _ & -> & _ & _ & _ & _ & Hlen & Hhex).
  simpl in H1, H2. injection H1 as <-. injection H2 as <-. eauto.
Qed.

(** X14. [GetInfo] sends one request, the query for the pull requests of
    the configured repository, and changes no pull request object that
    existed before the call; the snapshot carries the login and the
    repository of the response and the checked-out branch. *)
Theorem GetInfo_effects c gitcmd w resp branchname nodes :
  genclient.PullRequests (api c)
    (config.GitHubRepoOwner (config.Repo (config c)))
    (config.GitHubRepoName (config.Repo (config c))) = Some resp →
  getLocalBranchName gitcmd = Some branchname →
  genclient.response.Nodes resp = Some nodes →
  ∀ info w',
    GetInfo Ready c gitcmd w = Some (info, w') →
    calls w' = calls w ++
      [genclient.CallPullRequests
         (config.GitHubRepoOwner (config.Repo (config c)))
         (config.GitHubRepoName (config.Repo (config c)))] ∧
    (∀ p v, heap w !! p = Some v → heap w' !! p = Some v) ∧
    (∀ p, p ∈ PullRequests info → length (heap w) ≤ p) ∧
    UserName info = genclient.response.Login resp ∧
    RepositoryID info = genclient.response.RepositoryId resp ∧
    LocalBranch info = branchname.
Proof.
  intros Hresp Hbranch Hnodes info w'.
  rewrite (GetInfo_eq c gitcmd w resp branchname nodes Hresp Hbranch Hnodes).
  destruct (accepted resp branchname nodes) as [vs|]; [|done].
  destruct (sortPullRequests _ _ _ _ _) as [[sorted h']|] eqn:Hsort; [|done].
  intros [= <- <-]. simpl. split; [done|].
  unfold sortPullRequests in Hsort.
  destruct (sortLoop _ _ _ _ _) as [[s t']|] eqn:Hs; simpl in Hsort; [|done].
  destruct (markStacked _ _ _ s) as [h1|] eqn:Hm; simpl in Hsort; [|done].
  simplify_eq.
  pose proof (sortLoop_Permutation _ _ _ _ _ _ _ Hs) as Hperm.
  assert (∀ p, p ∈ sorted → length (heap w) ≤ p) as Hfresh.
  { intros p. rewrite Hperm. by intros [? _]%elem_of_seq. }
  split; [|done].
  intros p v Hv.
  assert (p ∉ sorted) as Hp.
  { intros Hin%Hfresh. apply lookup_lt_Some in Hv. lia. }
  rewrite (markStacked_other _ _ _ _ _ p Hp Hm).
  rewrite lookup_app_l; [done|]. by eapply lookup_lt_Some.
Qed.

End SnapshotMore.

Section MutationsMore.

Variable TrimSpace : string → string.

Implicit Types (h : list PullRequest) (w : World) (c : client).
Implicit Types (info : GitHubInfo) (commit : git.Commit).

(** X15. What [CreatePullRequest] leaves behind when it returns: one
    request to the remote, with the commit subject as title, the output of
    [formatBody] as body and the configured draft flag, and one new
    pull request object after the existing ones, which are unchanged.  The
    new object carries the identifiers of the remote's answer and the
    commit, and none of its merge signals is set: it is not [Stacked]. *)
Theorem CreatePullRequest_effects c gitcmd info commit prevCommit w p w' :
  CreatePullRequest TrimSpace c gitcmd info commit prevCommit w = Some (p, w') →
  ∃ input resp body created,
    formatBody TrimSpace (heap w) commit (PullRequests info) = Some body ∧
    genclient.CreatePullRequest (api c) input = Some resp ∧
    calls w' = calls w ++ [genclient.CallCreatePullRequest input] ∧
    genclient.create.RepositoryId input = RepositoryID info ∧
    genclient.create.Title input = git.Subject commit ∧
    genclient.create.Body input = Some body ∧
    genclient.create.Draft input
    = Some (config.CreateDraftPRs (config.User (config c))) ∧
    p = length (heap w) ∧
    heap w' = heap w ++ [created] ∧
    ID created = genclient.create.Id resp ∧
    Number created = genclient.create.Number resp ∧
    Title created = git.Subject commit ∧
    Commit created = commit ∧
    MergeStatus created
    = {| ChecksPass := CheckStatusUnknown; ReviewApproved := false;
         NoConflicts := false; Stacked := false |}.
Proof.
  unfold CreatePullRequest, mbind, M_bind, send, lift, getHeap, alloc.
  destruct (GetRemoteBranchName gitcmd _) as [trunk|]; [|done].
  destruct (formatBody TrimSpace (heap w) commit _) as [body|]; [|done].
  match goal with
  | |- context [genclient.CreatePullRequest (api c) ?i] =>
      set (input := i);
      destruct (genclient.CreatePullRequest (api c) input) as [resp|] eqn:Hr
  end; [|done].
  intros [= <- <-]. eexists input, resp, body, _. simpl. by repeat split.
Qed.

(** X16. [UpdatePullRequest] only reads the store: when it returns the
    pull request objects are as before, and it has sent one update, for
    the identifier of the pull request it was given, with the commit
    subject as title and the output of [formatBody] as body. *)
Theorem UpdatePullRequest_effects c gitcmd info pr commit prevCommit w u w' :
  UpdatePullRequest TrimSpace c gitcmd info pr commit prevCommit w
  = Some (u, w') →
  heap w' = heap w ∧
  ∃ input v body,
    heap w !! pr = Some v ∧
    formatBody TrimSpace (heap w) commit (PullRequests info) = Some body ∧
    calls w' = calls w ++ [genclient.CallUpdatePullRequest input] ∧
    genclient.update.PullRequestId input = ID v ∧
    genclient.update.Title input = Some (git.Subject commit) ∧
    genclient.update.Body input = Some body.
Proof.
  unfold UpdatePullRequest, mbind, M_bind, send, lift, getHeap.
  destruct (GetRemoteBranchName gitcmd _) as [trunk|]; [|done].
  destruct (heap w !! pr) as [v|]; [|done].
  destruct (formatBody TrimSpace (heap w) commit _) as [body|]; [|done].
  match goal with
  | |- context [genclient.UpdatePullRequest (api c) ?i] =>
      set (input := i);
      destruct (genclient.UpdatePullRequest (api c) input) as [r|]
  end; [|done].
  intros [= <- <-]. split; [done|]. by exists input, v, body.
Qed.

(** X17. Both [CreatePullRequest] and [UpdatePullRequest] need the
    checked-out branch, whether or not the commit has a predecessor: when
    it cannot be determined they abort, also when the base is the branch
    of the preceding commit and the target branch is not used. *)
Theorem mutations_need_local_branch c gitcmd info pr commit prevCommit w :
  getLocalBranchName gitcmd = None →
  CreatePullRequest TrimSpace c gitcmd info commit prevCommit w = None ∧
  UpdatePullRequest TrimSpace c gitcmd info pr commit prevCommit w = None.
Proof.
  intros Hb.
  unfold CreatePullRequest, UpdatePullRequest, mbind, M_bind, lift,
    GetRemoteBranchName.
  by rewrite Hb.
Qed.

End MutationsMore.

Section RecognitionMore.

Implicit Types (info : GitHubInfo) (commit : git.Commit).

(** X18. A pull request on the branch that [branchNameFromCommit] encodes
    is recognised by [GetInfo]: for a valid identity, a node of the queried
    repository whose head branch is the encoded name is taken into the
    stack of the local branch of the identity, with the fingerprint of the
    commit as [CommitID], whatever the commit of the node says. *)
Theorem encoded_branch_is_recognised (resp : genclient.response.t) info commit
    (node : genclient.node.t) (head : genclient.commit.t)
    (rest : list genclient.commit.t) :
  UserName info ≠ "" → GoString.all userClass (UserName info) = true →
  LocalBranch info ≠ "" → GoString.all branchClass (LocalBranch info) = true →
  String.length (git.CommitID commit) = 8 →
  GoString.all hexClass (git.CommitID commit) = true →
  genclient.node.HeadRefName node = branchNameFromCommit info commit →
  genclient.response.RepositoryId resp = genclient.node.RepositoryId node →
  genclient.node.Commits node = Some (head :: rest) →
  inStack resp (LocalBranch info) node = true ∧
  ∃ pr,
    GetInfo_node resp (LocalBranch info) node = Some (Some pr) ∧
    git.CommitID (Commit pr) = git.CommitID commit ∧
    git.CommitHash (Commit pr) = genclient.commit.Oid head ∧
    FromBranch pr = branchNameFromCommit info commit ∧
    ToBranch pr = genclient.node.BaseRefName node.
Proof.
  intros Hu Hua Hb Hba Hf Hfa Hhead Hrepo Hc.
  pose proof (FindStringSubmatch_here _ _ _
                (matchHere_branch_name _ _ _ Hu Hua Hb Hba Hf Hfa)) as Hm.
  fold (branchNameFromCommit info commit) in Hm. rewrite <-Hhead in Hm.
  split.
  - unfold inStack. rewrite Hm. simpl.
    by rewrite !bool_decide_eq_true_2.
  - unfold GetInfo_node. rewrite decide_False by (by intros ?).
    rewrite Hm. simpl. rewrite decide_True by done. rewrite Hc. simpl.
    eexists. split; [done|]. simpl. by rewrite Hhead.
Qed.

End RecognitionMore.

Section FormatterMore.

Variable TrimSpace : string → string.

Implicit Types (h : list PullRequest) (stack : list nat) (commit : git.Commit).

Lemma formatStackMarkdown_loop_nil h commit stack n buf i p :
  i < n → stack !! i = Some p → h !! p = None →
  formatStackMarkdown_loop h commit stack n buf = None.
Proof.
  revert buf. induction n as [|n IH]; intros buf Hi Hp Hnone; [lia|].
  simpl. destruct (decide (i = n)) as [->|Hne].
  - rewrite Hp. simpl. by rewrite Hnone.
  - destruct (stack !! n) as [q|]; simpl; [|done].
    destruct (h !! q) as [v|]; simpl; [|done].
    apply IH; [lia|done..].
Qed.

(** X19. [formatBody] aborts exactly when the stack has two or more entries
    and one of them is a nil pointer; an entry that is nil in a stack of
    one does no harm, since the list is not rendered then. *)
Theorem formatBody_aborts_iff h commit stack :
  formatBody TrimSpace h commit stack = None
  ↔ 2 ≤ length stack ∧ ∃ p, p ∈ stack ∧ h !! p = None.
Proof.
  split.
  - unfold formatBody.
    destruct (decide (length stack ≤ 1)) as [Hle|Hgt]; [done|].
    intros Hnone. split; [lia|].
    destruct (entries h stack) as [vs|] eqn:He.
    + rewrite (formatStackMarkdown_lines _ _ _ _ He) in Hnone.
      by destruct (decide (git.Body commit = "")).
    + apply mapM_None_1, Exists_exists in He as (p & Hin & Hp).
      by exists p.
  - intros [Hlen (p & [i Hi]%list_elem_of_lookup_1 & Hp)].
    unfold formatBody. rewrite decide_False by lia.
    unfold formatStackMarkdown.
    rewrite (formatStackMarkdown_loop_nil h commit stack _ _ i p);
      [by destruct (decide _)| |done..].
    by eapply lookup_lt_Some.
Qed.

End FormatterMore.

(** * The credential lookup *)

(** X20. The order in which [findToken] looks for a token: a non-empty
    [GITHUB_TOKEN] wins over both configuration files; without it an entry
    of the [gh] configuration for the host decides, also when its token is
    empty; and only without such an entry the [hub] configuration is asked,
    always for [github.com], so that any two hosts the [gh] configuration
    does not list get the same token. *)
Theorem findToken_precedence (env : credentials.Env) :
  (∀ host, credentials.Getenv env "GITHUB_TOKEN" ≠ "" →
     credentials.findToken env host = credentials.Getenv env "GITHUB_TOKEN") ∧
  (∀ host cfg user,
     credentials.Getenv env "GITHUB_TOKEN" = "" →
     credentials.readGhCLIConfig env = Some cfg →
     cfg !! host = Some user →
     credentials.findToken env host = credentials.ghOauthToken user) ∧
  (∀ host host',
     credentials.Getenv env "GITHUB_TOKEN" = "" →
     (∀ cfg, credentials.readGhCLIConfig env = Some cfg →
             cfg !! host = None ∧ cfg !! host' = None) →
     credentials.findToken env host = credentials.findToken env host' ∧
     (credentials.findToken env host ≠ "" →
      ∃ hubCfg c0 rest,
        credentials.readHubCLIConfig env = Some hubCfg ∧
        hubCfg !! "github.com" = Some (c0 :: rest) ∧
        credentials.findToken env host = credentials.hubOauthToken c0)).
Proof.
  unfold credentials.findToken. split; [|split].
  - intros host Hne. by rewrite decide_True.
  - intros host cfg user He Hcfg Huser.
    rewrite decide_False by (by intros ?). by rewrite Hcfg, Huser.
  - intros host host' He Habsent.
    rewrite !decide_False by (by intros ?).
    assert (∀ h, (h = host ∨ h = host') →
              match credentials.readGhCLIConfig env with
              | Some cfg =>
                  match cfg !! h with
                  | Some user => credentials.ghOauthToken user
                  | None => credentials.findToken_hub env
                  end
              | None => credentials.findToken_hub env
              end = credentials.findToken_hub env) as Hhub.
    { intros h Hh. destruct (credentials.readGhCLIConfig env) as [cfg|]; [|done].
      destruct (Habsent cfg eq_refl) as [H1 H2].
      by destruct Hh as [-> | ->]; rewrite ?H1, ?H2. }
    rewrite (Hhub host), (Hhub host') by auto. split; [done|].
    unfold credentials.findToken_hub.
    destruct (credentials.readHubCLIConfig env) as [hubCfg|]; [|done].
    destruct (hubCfg !! "github.com") as [[|c0 rest]|] eqn:E; try done.
    intros _. by exists hubCfg, c0, rest.
Qed.

(** * The assignable users *)

Section UsersMore.

Import users.

Implicit Types (query : Query) (ps : list page) (us : list RepoAssignee).

Lemma appendUsers_assignees us nodes new :
  assignees nodes = Some new → appendUsers us nodes = Some (us ++ new).
Proof.
  unfold assignees. revert us new.
  induction nodes as [|n nodes IH]; intros us new.
  - intros [= <-]. simpl. by rewrite app_nil_r.
  - cbn [mapM appendUsers]. destruct (Name n) as [name|]; simpl; [|done].
    destruct (mapM _ nodes) as [rest|] eqn:E; simpl; [|done].
    intros [= <-]. rewrite (IH _ rest) by done. by rewrite <-app_assoc.
Qed.

Lemma appendUsers_nameless us nodes n :
  n ∈ nodes → Name n = None → appendUsers us nodes = None.
Proof.
  revert us. induction nodes as [|n' nodes IH]; intros us Hin Hn.
  - by apply elem_of_nil in Hin.
  - simpl. apply elem_of_cons in Hin as [<-|Hin]; [by rewrite Hn|].
    destruct (Name n'); simpl; [|done]. by apply IH.
Qed.

Lemma GetAssignableUsers_loop_paged query owner name ps :
  ∀ fuel cursor us uss,
    paged query owner name cursor ps →
    Forall2 (λ p new, ∃ nodes, Nodes p = Some nodes ∧ assignees nodes = Some new)
            ps uss →
    length ps ≤ fuel →
    GetAssignableUsers_loop fuel query owner name us cursor
    = Done (us ++ concat uss).
Proof.
  induction ps as [|p ps IH]; intros fuel cursor us uss Hpaged HF Hfuel;
    [done|].
  destruct fuel as [|fuel]; [simpl in Hfuel; lia|].
  apply Forall2_cons_inv_l in HF as (new & uss' & (nodes & Hn & Ha) & HF & ->).
  destruct Hpaged as [Hq Hrest]. simpl.
  rewrite Hq, Hn, (appendUsers_assignees _ _ _ Ha).
  destruct ps as [|p2 ps].
  - rewrite Hrest. simpl. apply Forall2_nil_inv_l in HF as ->.
    simpl. by rewrite app_nil_r.
  - destruct Hrest as [-> Hrest]. simpl.
    rewrite (IH fuel _ _ uss') by (try done; simpl in *; lia).
    by rewrite <-app_assoc.
Qed.

(** X21. When the remote answers with a finite run of pages, each reached
    through the end cursor of the page before it and all but the last
    announcing a next page, [GetAssignableUsers] returns the users of all
    pages, in the order of the pages and of the users on them. *)
Theorem GetAssignableUsers_all_pages fuel query config ps uss :
  paged query (config.GitHubRepoOwner (config.Repo config))
    (config.GitHubRepoName (config.Repo config)) None ps →
  Forall2 (λ p new, ∃ nodes, Nodes p = Some nodes ∧ assignees nodes = Some new)
          ps uss →
  length ps ≤ fuel →
  GetAssignableUsers fuel query config = Done (concat uss).
Proof.
  intros Hpaged HF Hfuel. unfold GetAssignableUsers.
  by rewrite (GetAssignableUsers_loop_paged _ _ _ ps fuel None [] uss).
Qed.

(** X22. [GetAssignableUsers] aborts on the first page when the request
    fails, when the page has no node list, and when one of its users has no
    name: the name is read through a pointer that is nil then. *)
Theorem GetAssignableUsers_aborts fuel query config :
  let owner := config.GitHubRepoOwner (config.Repo config) in
  let name := config.GitHubRepoName (config.Repo config) in
  query owner name None = None
  ∨ (∃ p, query owner name None = Some p ∧
          (Nodes p = None
           ∨ ∃ nodes n, Nodes p = Some nodes ∧ n ∈ nodes ∧ Name n = None)) →
  GetAssignableUsers (S fuel) query config = Abort.
Proof.
  intros owner name H. unfold GetAssignableUsers. simpl.
  fold owner name.
  destruct H as [->|(p & -> & [->|(nodes & n & -> & Hin & Hn)])]; try done.
  by rewrite (appendUsers_nameless [] nodes n).
Qed.

(** X23. The paging loop has no bound of its own: when the remote
    announces a next page at every cursor, [GetAssignableUsers] neither
    returns nor aborts, however many pages it is allowed to fetch. *)
Theorem GetAssignableUsers_endless query config :
  (∀ cursor, ∃ p nodes new,
     query (config.GitHubRepoOwner (config.Repo config))
       (config.GitHubRepoName (config.Repo config)) cursor = Some p ∧
     Nodes p = Some nodes ∧ assignees nodes = Some new ∧
     HasNextPage p = true) →
  ∀ fuel, GetAssignableUsers fuel query config = OutOfFuel.
Proof.
  intros Hq fuel. unfold GetAssignableUsers.
  generalize (@nil RepoAssignee) (@None string).
  induction fuel as [|fuel IH]; intros us cursor; [done|]. simpl.
  destruct (Hq cursor) as (p & nodes & new & -> & -> & Ha & ->).
  rewrite (appendUsers_assignees _ _ _ Ha). simpl. apply IH.
Qed.

End UsersMore.

(** * The further properties on concrete inputs *)

Lemma sortPullRequests_maximal_chain_witness :
  ∃ sorted h' out m,
    sortPullRequests github.Ready
      [Examples.X_gone; Examples.Y_lost; Examples.Z_main] [0; 1; 2]
      Examples.cfg "main" = Some (sorted, h') ∧
    entries h' sorted = Some out ∧
    chained "main" (take m out) ∧
    ∀ pr, pr ∈ drop m out → ToBranch pr ≠ lastTarget "main" (take m out).
Proof.
  apply (sortPullRequests_maximal_chain github.Ready
           [Examples.X_gone; Examples.Y_lost; Examples.Z_main] [0; 1; 2]
           Examples.cfg "main").
  repeat constructor; eexists; reflexivity.
Defined.

Lemma sortPullRequests_idempotent_witness :
  ∃ sorted h' h'',
    sortPullRequests github.Ready
      [Examples.X_gone; Examples.Y_lost; Examples.Z_main] [0; 1; 2]
      Examples.cfg "main" = Some (sorted, h') ∧
    sortPullRequests github.Ready h' sorted Examples.cfg "main"
    = Some (sorted, h'').
Proof.
  apply (sortPullRequests_idempotent github.Ready
           [Examples.X_gone; Examples.Y_lost; Examples.Z_main] [0; 1; 2]
           Examples.cfg "main").
  repeat constructor; eexists; reflexivity.
Defined.


Lemma BranchNameRegex_match_is_encoded_witness :
  ∃ pre u b f,
    "wip-pr/u/feature/deadbeef"
    = pre +:+ "pr/" +:+ u +:+ "/" +:+ b +:+ "/" +:+ f ∧
    ["pr/u/feature/deadbeef"; "feature"; "deadbeef"]
    = ["pr/" +:+ u +:+ "/" +:+ b +:+ "/" +:+ f; b; f] ∧
    u ≠ "" ∧ GoString.all userClass u = true ∧
    b ≠ "" ∧ GoString.all branchClass b = true ∧
    String.length f = 8 ∧ GoString.all hexClass f = true.
Proof.
  apply (BranchNameRegex_match_is_encoded "wip-pr/u/feature/deadbeef"
           ["pr/u/feature/deadbeef"; "feature"; "deadbeef"]).
  vm_compute. reflexivity.
Defined.

Lemma branchNameFromCommit_inj_witness :
  UserName Remote.info = UserName Remote.info ∧
  LocalBranch Remote.info = LocalBranch Remote.info ∧
  git.CommitID (Commit Examples.A) = git.CommitID (Commit Examples.A).
Proof.
  apply (branchNameFromCommit_inj Remote.info Remote.info
           (Commit Examples.A) (Commit Examples.A));
    simpl; (discriminate || reflexivity).
Defined.

Lemma getLocalBranchName_current_witness :
  getLocalBranchName Remote.gitcmd = Some "feature".
Proof.
  apply (getLocalBranchName_current Remote.gitcmd [] ["  main"; ""] "feature").
  - vm_compute. reflexivity.
  - repeat constructor.
  - constructor.
Defined.

Lemma getLocalBranchName_no_current_witness :
  getLocalBranchName Cases.noGit = None ∧
  GetRemoteBranchName Cases.noGit (config.Repo Examples.cfg) = None.
Proof.
  apply (getLocalBranchName_no_current Cases.noGit (config.Repo Examples.cfg)).
  left. reflexivity.
Defined.

Lemma getLocalBranchName_one_line_witness : free "010" "feature" = true.
Proof.
  apply (getLocalBranchName_one_line Remote.gitcmd "feature"). reflexivity.
Defined.

Lemma GetRemoteBranchName_target_witness :
  ∃ target,
    GetRemoteBranchName Remote.gitcmd (config.Repo Examples.cfg) = Some target ∧
    (("feature" ∈ config.RemoteBranches (config.Repo Examples.cfg)
      ∧ target = "feature")
     ∨ (("feature" ∉ config.RemoteBranches (config.Repo Examples.cfg))
        ∧ target = config.GitHubBranch (config.Repo Examples.cfg))).
Proof.
  apply (GetRemoteBranchName_target Remote.gitcmd (config.Repo Examples.cfg)
           "feature").
  reflexivity.
Defined.

Lemma GetInfo_stacked_prefix_witness :
  ∃ info w' out,
    GetInfo github.Ready Remote.c Remote.gitcmd Remote.empty = Some (info, w') ∧
    entries (heap w') (PullRequests info) = Some out ∧
    stackedPrefix out.
Proof.
  apply (GetInfo_stacked_prefix github.Ready Remote.c Remote.gitcmd
           Remote.empty Remote.resp "feature" Remote.nodes).
  - reflexivity.
  - vm_compute; reflexivity.
  - reflexivity.
  - exact Remote_commits.
Defined.

Lemma GetInfo_chain_order_witness :
  ∃ vs,
    accepted Remote.resp "feature" Remote.nodes = Some vs ∧
    ∃ info w' out chain,
      GetInfo github.Ready Remote.c Remote.gitcmd Remote.empty
      = Some (info, w') ∧
      entries (heap w') (PullRequests info) = Some out ∧
      chain ≡ₚ vs ∧
      Forall2 flagged chain out ∧
      chained "main" out.
Proof.
  eexists. split; [vm_compute; reflexivity|].
  apply (GetInfo_chain_order github.Ready Remote.c Remote.gitcmd
           Remote.empty Remote.resp "feature" Remote.nodes).
  - reflexivity.
  - vm_compute; reflexivity.
  - reflexivity.
  - vm_compute; reflexivity.
  - vm_compute; reflexivity.
  - match goal with
    | |- singleChain _ [?a; ?b; ?c] =>
        split;
        [ apply (bool_decide_unpack _); vm_compute; exact I
        | exists [b; c; a]; split;
          [ apply (bool_decide_unpack _); vm_compute; exact I
          | apply linked_chained; simpl; repeat split; reflexivity ] ]
    end.
Defined.

Lemma GetInfo_no_head_commit_witness :
  GetInfo github.Ready Cases.bareClient Remote.gitcmd Remote.empty = None.
Proof.
  apply (GetInfo_no_head_commit github.Ready Cases.bareClient Remote.gitcmd
           Remote.empty Cases.bareResp "feature" [Cases.bare] Cases.bare).
  - reflexivity.
  - vm_compute; reflexivity.
  - reflexivity.
  - by left.
  - vm_compute; reflexivity.
  - by right.
Defined.

Lemma GetInfo_fingerprint_witness :
  ∃ info w' out,
    GetInfo github.Ready Remote.c Remote.gitcmd Remote.empty = Some (info, w') ∧
    entries (heap w') (PullRequests info) = Some out ∧
    ∀ pr, pr ∈ out →
      (∃ whole,
         FindStringSubmatch BranchNameRegex (FromBranch pr)
         = Some [whole; "feature"; git.CommitID (Commit pr)]) ∧
      String.length (git.CommitID (Commit pr)) = 8 ∧
      GoString.all hexClass (git.CommitID (Commit pr)) = true.
Proof.
  apply (GetInfo_fingerprint github.Ready Remote.c Remote.gitcmd
           Remote.empty Remote.resp "feature" Remote.nodes).
  - reflexivity.
  - vm_compute; reflexivity.
  - reflexivity.
  - exact Remote_commits.
Defined.

Lemma GetInfo_effects_witness :
  ∃ info w',
    GetInfo github.Ready Remote.c Remote.gitcmd Remote.world = Some (info, w') ∧
    calls w' = calls Remote.world ++ [genclient.CallPullRequests "ejoffe" "spr"] ∧
    (∀ p v, heap Remote.world !! p = Some v → heap w' !! p = Some v) ∧
    (∀ p, p ∈ PullRequests info → length (heap Remote.world) ≤ p) ∧
    UserName info = "u" ∧ RepositoryID info = "R_1" ∧
    LocalBranch info = "feature".
Proof.
  eexists _, _. split; [vm_compute; reflexivity|].
  apply (GetInfo_effects github.Ready Remote.c Remote.gitcmd Remote.world
           Remote.resp "feature" Remote.nodes).
  - reflexivity.
  - vm_compute; reflexivity.
  - reflexivity.
  - vm_compute; reflexivity.
Defined.

Lemma CreatePullRequest_effects_witness :
  ∃ p w',
    CreatePullRequest GoString.TrimSpaceASCII Remote.c Remote.gitcmd
      Remote.info (Commit Examples.C) (Some (Commit Examples.B)) Remote.world
    = Some (p, w') ∧
    ∃ input resp body created,
      formatBody GoString.TrimSpaceASCII (heap Remote.world)
        (Commit Examples.C) (PullRequests Remote.info) = Some body ∧
      genclient.CreatePullRequest (api Remote.c) input = Some resp ∧
      calls w' = calls Remote.world ++ [genclient.CallCreatePullRequest input] ∧
      genclient.create.RepositoryId input = RepositoryID Remote.info ∧
      genclient.create.Title input = git.Subject (Commit Examples.C) ∧
      genclient.create.Body input = Some body ∧
      genclient.create.Draft input
      = Some (config.CreateDraftPRs (config.User (config Remote.c))) ∧
      p = length (heap Remote.world) ∧
      heap w' = heap Remote.world ++ [created] ∧
      ID created = genclient.create.Id resp ∧
      Number created = genclient.create.Number resp ∧
      Title created = git.Subject (Commit Examples.C) ∧
      Commit created = Commit Examples.C ∧
      MergeStatus created
      = {| ChecksPass := CheckStatusUnknown; ReviewApproved := false;
           NoConflicts := false; Stacked := false |}.
Proof.
  eexists _, _. split; [vm_compute; reflexivity|].
  apply (CreatePullRequest_effects GoString.TrimSpaceASCII Remote.c
           Remote.gitcmd Remote.info (Commit Examples.C)
           (Some (Commit Examples.B)) Remote.world).
  vm_compute; reflexivity.
Defined.

Lemma UpdatePullRequest_effects_witness :
  ∃ w',
    UpdatePullRequest GoString.TrimSpaceASCII Remote.c Remote.gitcmd
      Remote.info 2 (Commit Examples.C) (Some (Commit Examples.B)) Remote.world
    = Some (tt, w') ∧
    heap w' = heap Remote.world ∧
    ∃ input v body,
      heap Remote.world !! 2 = Some v ∧
      formatBody GoString.TrimSpaceASCII (heap Remote.world)
        (Commit Examples.C) (PullRequests Remote.info) = Some body ∧
      calls w' = calls Remote.world ++ [genclient.CallUpdatePullRequest input] ∧
      genclient.update.PullRequestId input = ID v ∧
      genclient.update.Title input = Some (git.Subject (Commit Examples.C)) ∧
      genclient.update.Body input = Some body.
Proof.
  eexists. split; [vm_compute; reflexivity|].
  apply (UpdatePullRequest_effects GoString.TrimSpaceASCII Remote.c
           Remote.gitcmd Remote.info 2 (Commit Examples.C)
           (Some (Commit Examples.B)) Remote.world tt).
  vm_compute; reflexivity.
Defined.

Lemma mutations_need_local_branch_witness :
  CreatePullRequest GoString.TrimSpaceASCII Remote.c Cases.noGit Remote.info
    (Commit Examples.C) (Some (Commit Examples.B)) Remote.world = None ∧
  UpdatePullRequest GoString.TrimSpaceASCII Remote.c Cases.noGit Remote.info
    2 (Commit Examples.C) (Some (Commit Examples.B)) Remote.world = None.
Proof.
  apply (mutations_need_local_branch GoString.TrimSpaceASCII Remote.c
           Cases.noGit Remote.info 2 (Commit Examples.C)
           (Some (Commit Examples.B)) Remote.world).
  reflexivity.
Defined.

Lemma encoded_branch_is_recognised_witness :
  inStack Remote.resp (LocalBranch Remote.info)
    (Remote.node "PR_2" 2 "pr/u/feature/0000000b" "pr/u/feature/0000000a" None)
  = true ∧
  ∃ pr,
    GetInfo_node Remote.resp (LocalBranch Remote.info)
      (Remote.node "PR_2" 2 "pr/u/feature/0000000b" "pr/u/feature/0000000a" None)
    = Some (Some pr) ∧
    git.CommitID (Commit pr) = git.CommitID (Commit Examples.B) ∧
    git.CommitHash (Commit pr) = "oid2" ∧
    FromBranch pr = branchNameFromCommit Remote.info (Commit Examples.B) ∧
    ToBranch pr = "pr/u/feature/0000000a".
Proof.
  apply (encoded_branch_is_recognised Remote.resp Remote.info
           (Commit Examples.B)
           (Remote.node "PR_2" 2 "pr/u/feature/0000000b"
              "pr/u/feature/0000000a" None)
           {| genclient.commit.Oid := "oid2";
              genclient.commit.MessageHeadline := "change 2";
              genclient.commit.MessageBody := "";
              genclient.commit.StatusCheckRollup := None |} []);
    simpl; (discriminate || reflexivity).
Defined.

Lemma GetAssignableUsers_all_pages_witness :
  users.GetAssignableUsers 5 Cases.twoPages Examples.cfg
  = users.Done
      (concat
         [ [ {| users.ID := "U_1"; users.AssigneeLogin := "ann";
                users.AssigneeName := "Ann" |};
             {| users.ID := "U_2"; users.AssigneeLogin := "bob";
                users.AssigneeName := "" |} ];
           [ {| users.ID := "U_3"; users.AssigneeLogin := "cy";
                users.AssigneeName := "Cy" |} ] ]).
Proof.
  apply (GetAssignableUsers_all_pages 5 Cases.twoPages Examples.cfg
           [Cases.first; Cases.second]).
  - simpl. repeat split; reflexivity.
  - repeat constructor; eexists; split; reflexivity.
  - simpl; lia.
Defined.

Lemma GetAssignableUsers_aborts_witness :
  users.GetAssignableUsers 3 (λ _ _ _, Some Cases.nameless) Examples.cfg
  = users.Abort.
Proof.
  apply (GetAssignableUsers_aborts 2 (λ _ _ _, Some Cases.nameless)
           Examples.cfg).
  right. eexists. split; [reflexivity|]. right.
  eexists _, _. split; [reflexivity|]. split; [by left|reflexivity].
Defined.

Lemma GetAssignableUsers_endless_witness :
  users.GetAssignableUsers 1000 Cases.endless Examples.cfg = users.OutOfFuel.
Proof.
  apply (GetAssignableUsers_endless Cases.endless Examples.cfg).
  intros cursor. eexists _, _, _. repeat split; reflexivity.
Defined.
